(** * droid-extevdev: wired-accessory switch monitor

    A shallow embedding of [src/droid/droid-extevdev.c] and the properties
    of its device selector, read loop, availability policy and life cycle.

    The C code talks to four collaborators: the directory [/dev/input],
    libevdev, the card's port registry and the main loop.  They are modelled
    by explicit data (a directory listing, a scripted device, a finite map,
    a trace of calls); the functions of the file itself are translated line
    by line into a small state monad over that data. *)

From stdpp Require Import gmap strings list.

Local Open Scope Z_scope.

(** ** Constants of the kernel and of libevdev *)

(* linux/input-event-codes.h *)
Definition EV_SYN : Z := 0.
Definition EV_KEY : Z := 1.
Definition EV_SW : Z := 5.
Definition SYN_REPORT : Z := 0.
Definition SYN_DROPPED : Z := 3.
Definition SW_LID : Z := 0.
Definition SW_HEADPHONE_INSERT : Z := 2.
Definition SW_MICROPHONE_INSERT : Z := 4.
Definition SW_LINEOUT_INSERT : Z := 6.
(* errno.h *)
Definition EAGAIN : Z := 11.
Definition ENODEV : Z := 19.
Definition EACCES : Z := 13.
(* libevdev.h: enum libevdev_read_status *)
Definition LIBEVDEV_READ_STATUS_SUCCESS : Z := 0.
Definition LIBEVDEV_READ_STATUS_SYNC : Z := 1.

(** ** Data *)

(** [pa_available_t] of pulse/def.h. *)
Inductive pa_available_t :=
  | PA_AVAILABLE_UNKNOWN
  | PA_AVAILABLE_NO
  | PA_AVAILABLE_YES.

Global Instance pa_available_eq_dec : EqDecision pa_available_t.
Proof. solve_decision. Defined.

(** [struct input_event] without its time stamp, which the code never
    reads. *)
Record input_event := InputEvent {
  ev_type : Z;
  ev_code : Z;
  ev_value : Z
}.

(** The read flag handed to [libevdev_next_event]. *)
Inductive read_flag :=
  | LIBEVDEV_READ_FLAG_SYNC
  | LIBEVDEV_READ_FLAG_NORMAL.

Global Instance read_flag_eq_dec : EqDecision read_flag.
Proof. solve_decision. Defined.

(** One scripted answer of [libevdev_next_event]: the return value and the
    event stored through the out-pointer. *)
Record reply := Reply {
  r_err : Z;
  r_ev : input_event
}.

(** A decoding context ([struct libevdev]): the descriptor it was built
    from, the event codes the device supports with their cached values, and
    the answers it will give to successive reads. *)
Record libevdev := Libevdev {
  fd : Z;
  caps : gmap (Z * Z) Z;
  pending : list reply
}.

(** [struct pa_droid_extevdev].  The [card] pointer is not a field of the
    model: there is one card, and its port registry lives in the [world]
    below, where every holder of the pointer sees the same registry.
    [event] holds the descriptor the readiness callback was registered
    for. *)
Record pa_droid_extevdev := Monitor {
  evdev_dev : option libevdev;
  event : option Z;
  sw_headphone_insert : bool;
  sw_microphone_insert : bool;
  sw_lineout_insert : bool
}.

Definition set_evdev_dev (d : option libevdev) (u : pa_droid_extevdev) :=
  Monitor d (event u)
          (sw_headphone_insert u) (sw_microphone_insert u) (sw_lineout_insert u).
Definition set_event (e : option Z) (u : pa_droid_extevdev) :=
  Monitor (evdev_dev u) e
          (sw_headphone_insert u) (sw_microphone_insert u) (sw_lineout_insert u).
Definition set_sw_headphone_insert (b : bool) (u : pa_droid_extevdev) :=
  Monitor (evdev_dev u) (event u)
          b (sw_microphone_insert u) (sw_lineout_insert u).
Definition set_sw_microphone_insert (b : bool) (u : pa_droid_extevdev) :=
  Monitor (evdev_dev u) (event u)
          (sw_headphone_insert u) b (sw_lineout_insert u).
Definition set_sw_lineout_insert (b : bool) (u : pa_droid_extevdev) :=
  Monitor (evdev_dev u) (event u)
          (sw_headphone_insert u) (sw_microphone_insert u) b.

(** Conversion of an [int] to a [bool] bit-field: [bool] is C99 [_Bool], so
    the stored bit is [value != 0]. *)
Definition bool_of_int (v : Z) : bool := negb (v =? 0).

(** ** The outside world *)

(** Calls that leave the file, in the order they are made.  [Notified] is a
    ghost entry: it marks one run of [notify_ports] and carries its two
    locals [has_headphone] and [has_headset]. *)
Inductive action :=
  | Scandir
  | Open (fname : string)
  | LibevdevNewFromFd (d : Z)
  | LibevdevFree (d : Z)
  | Close (d : Z)
  | FreeNamelist
  | LogDebug (fname : string)
  | LogWarn (fname : string) (errnum : Z)
  | LogError (errnum : Z)
  | HashmapGet (name : string)
  | SetAvailable (name : string) (a : pa_available_t)
  | NextEvent (flags : read_flag)
  | FetchEventValue (code : Z)
  | IoNew (d : Z)
  | IoFree (d : Z)
  | Xfree
  | Notified (has_headphone has_headset : pa_available_t).

Global Instance action_eq_dec : EqDecision action.
Proof. solve_decision. Defined.

(** The card's port registry ([u->card->ports]: port name to the
    availability stored in the port) and the trace of calls. *)
Record world := World {
  ports : gmap string pa_available_t;
  trace : list action
}.

(** How a call ends: it returns, it runs into undefined behaviour, or the
    model's loop bound was too small. *)
Inductive outcome (A : Type) :=
  | Returns (a : A) (w : world)
  | Undefined (w : world)
  | OutOfFuel (w : world).
Arguments Returns {A} a w.
Arguments Undefined {A} w.
Arguments OutOfFuel {A} w.

Definition M (A : Type) : Type := world -> outcome A.

Definition ret {A} (a : A) : M A := fun w => Returns a w.
Definition bind {A B} (m : M A) (k : A -> M B) : M B :=
  fun w =>
    match m w with
    | Returns a w' => k a w'
    | Undefined w' => Undefined w'
    | OutOfFuel w' => OutOfFuel w'
    end.
Definition undefined {A} : M A := fun w => Undefined w.
Definition out_of_fuel {A} : M A := fun w => OutOfFuel w.

Declare Scope m_scope.
Delimit Scope m_scope with M.
Notation "x <- m ;; k" := (bind m (fun x => k))
  (at level 100, m at next level, right associativity) : m_scope.
Notation "m ;;; k" := (bind m (fun _ => k))
  (at level 100, right associativity) : m_scope.
Local Open Scope m_scope.

Definition emit (a : action) : M unit :=
  fun w => Returns tt (World (ports w) (trace w ++ [a])).

(** A [for] loop over a static array. *)
Fixpoint for_each {A} (l : list A) (body : A -> M unit) : M unit :=
  match l with
  | [] => ret tt
  | x :: l' => body x ;;; for_each l' body
  end.

(** *** Port registry *)

(** [pa_hashmap_get(u->card->ports, name)]: the port, if the card has one
    of that name. *)
Definition pa_hashmap_get (name : string) : M (option string) :=
  fun w =>
    Returns (match ports w !! name with Some _ => Some name | None => None end)
            (World (ports w) (trace w ++ [HashmapGet name])).

(** [pa_device_port_set_available(p, status)]. *)
Definition pa_device_port_set_available (p : string) (a : pa_available_t) : M unit :=
  fun w => Returns tt (World (<[p := a]> (ports w)) (trace w ++ [SetAvailable p a])).

(** ** notify_ports *)

Definition headphone_ports : list string := ["output-wired_headphone"%string].
Definition headset_ports : list string :=
  ["output-wired_headset"%string; "input-wired_headset"%string].

Definition has_headphone (u : pa_droid_extevdev) : pa_available_t :=
  if (sw_headphone_insert u || sw_lineout_insert u) && negb (sw_microphone_insert u)
  then PA_AVAILABLE_YES else PA_AVAILABLE_NO.

Definition has_headset (u : pa_droid_extevdev) : pa_available_t :=
  if (sw_headphone_insert u || sw_lineout_insert u) && sw_microphone_insert u
  then PA_AVAILABLE_YES else PA_AVAILABLE_NO.

Definition notify_ports (u : pa_droid_extevdev) : M unit :=
  emit (Notified (has_headphone u) (has_headset u)) ;;;
  for_each headphone_ports (fun name =>
    p <- pa_hashmap_get name ;;
    match p with
    | Some p => pa_device_port_set_available p (has_headphone u)
    | None => ret tt
    end) ;;;
  for_each headset_ports (fun name =>
    p <- pa_hashmap_get name ;;
    match p with
    | Some p => pa_device_port_set_available p (has_headset u)
    | None => ret tt
    end).

(** ** libevdev, as far as the file calls it *)

Definition libevdev_get_fd (dev : libevdev) : Z := fd dev.

Definition libevdev_has_event_code (dev : libevdev) (type code : Z) : bool :=
  bool_decide (is_Some (caps dev !! (type, code))).

(** [libevdev_fetch_event_value(dev, type, code, &value)]: 1 and the cached
    value when the device supports the code, 0 and [value] left alone
    otherwise. *)
Definition libevdev_fetch_event_value (dev : libevdev) (type code : Z) (value : Z)
  : Z * Z :=
  match caps dev !! (type, code) with
  | Some v => (1, v)
  | None => (0, value)
  end.

(** [libevdev_next_event(dev, flags, &ev)] of a scripted device: the next
    scripted answer, whatever the flag; [-EAGAIN] once the script is used
    up (the descriptor is non-blocking).  [ev] is written only when the
    call does not fail. *)
Definition libevdev_next_event (dev : libevdev) (flags : read_flag) (ev : input_event)
  : Z * input_event * libevdev :=
  match pending dev with
  | [] => (- EAGAIN, ev, dev)
  | r :: q =>
      (r_err r, if r_err r <? 0 then ev else r_ev r, Libevdev (fd dev) (caps dev) q)
  end.

(** ** evdev_cb *)

(** Lines 182-200: what the loop does with an event it has read. *)
Definition handle_event (ev : input_event) (u : pa_droid_extevdev)
  : M pa_droid_extevdev :=
  if ev_type ev =? EV_SW then
    if ev_code ev =? SW_HEADPHONE_INSERT then
      ret (set_sw_headphone_insert (bool_of_int (ev_value ev)) u)
    else if ev_code ev =? SW_MICROPHONE_INSERT then
      ret (set_sw_microphone_insert (bool_of_int (ev_value ev)) u)
    else if ev_code ev =? SW_LINEOUT_INSERT then
      ret (set_sw_lineout_insert (bool_of_int (ev_value ev)) u)
    else
      ret u
  else if (ev_type ev =? EV_SYN) && (ev_code ev =? SYN_REPORT) then
    notify_ports u ;;; ret u
  else
    ret u.

(** How one pass through the body of [while (1)] ends. *)
Inductive loop_ctl :=
  | Break (u : pa_droid_extevdev) (dev : libevdev)
  | Continue (flags : read_flag) (ev : input_event)
             (u : pa_droid_extevdev) (dev : libevdev).

(** Lines 158-200: one pass through the loop body. *)
Definition evdev_cb_iter (flags : read_flag) (ev : input_event)
    (u : pa_droid_extevdev) (dev : libevdev) : M loop_ctl :=
  emit (NextEvent flags) ;;;
  let '(err, ev, dev) := libevdev_next_event dev flags ev in
  let process := (u' <- handle_event ev u ;; ret (Continue flags ev u' dev)) in
  if err =? - EAGAIN then
    match flags with
    | LIBEVDEV_READ_FLAG_SYNC => ret (Continue LIBEVDEV_READ_FLAG_NORMAL ev u dev)
    | LIBEVDEV_READ_FLAG_NORMAL => ret (Break u dev)
    end
  else if err =? LIBEVDEV_READ_STATUS_SYNC then
    match flags with
    | LIBEVDEV_READ_FLAG_NORMAL => ret (Continue LIBEVDEV_READ_FLAG_SYNC ev u dev)
    | LIBEVDEV_READ_FLAG_SYNC => process
    end
  else if err <? 0 then
    emit (LogError (- err)) ;;; ret (Break u dev)
  else
    process.

Fixpoint evdev_loop (fuel : nat) (flags : read_flag) (ev : input_event)
    (u : pa_droid_extevdev) (dev : libevdev) : M (pa_droid_extevdev * libevdev) :=
  match fuel with
  | O => out_of_fuel
  | S fuel' =>
      c <- evdev_cb_iter flags ev u dev ;;
      match c with
      | Break u' dev' => ret (u', dev')
      | Continue flags' ev' u' dev' => evdev_loop fuel' flags' ev' u' dev'
      end
  end.

(** The local [ev] starts out uninitialised; the loop reads it only after a
    call that wrote it, so its first content is immaterial. *)
Definition ev_uninit : input_event := InputEvent 0 0 0.

(** The readiness callback.  The scripted device answers [-EAGAIN] when its
    script is used up, so two passes more than there are answers always
    suffice (see [evdev_loop_total]). *)
Definition evdev_cb (u : pa_droid_extevdev) : M pa_droid_extevdev :=
  match evdev_dev u with
  | None => undefined
  | Some dev =>
      r <- evdev_loop (length (pending dev) + 2)%nat
                      LIBEVDEV_READ_FLAG_NORMAL ev_uninit u dev ;;
      ret (set_evdev_dev (Some (snd r)) (fst r))
  end.

(** ** read_initial_switch_values *)

(** The macro [INIT_SW(code, sw_var)]; [value] is the shared local. *)
Definition INIT_SW (dev : libevdev) (code : Z)
    (sw_var : bool -> pa_droid_extevdev -> pa_droid_extevdev)
    (value : Z) (u : pa_droid_extevdev) : M (Z * pa_droid_extevdev) :=
  emit (FetchEventValue code) ;;;
  let '(r, value) := libevdev_fetch_event_value dev EV_SW code value in
  if r =? 0 then ret (value, sw_var false u)
  else ret (value, sw_var (bool_of_int value) u).

Definition read_initial_switch_values (u : pa_droid_extevdev) : M pa_droid_extevdev :=
  match evdev_dev u with
  | None => undefined
  | Some dev =>
      r <- INIT_SW dev SW_HEADPHONE_INSERT set_sw_headphone_insert 0 u ;;
      r <- INIT_SW dev SW_MICROPHONE_INSERT set_sw_microphone_insert (fst r) (snd r) ;;
      r <- INIT_SW dev SW_LINEOUT_INSERT set_sw_lineout_insert (fst r) (snd r) ;;
      notify_ports (snd r) ;;; ret (snd r)
  end.

(** ** find_switch_evdev *)

Definition DEV_INPUT_EVENT : string := "/dev/input".
Definition EVENT_DEV_NAME : string := "event".

(** One entry of [/dev/input] and how it answers the probe: what [open]
    returns (with [errno] when it fails), what [libevdev_new_from_fd]
    returns, and the device behind the node. *)
Record input_node := InputNode {
  d_name : string;
  open_ret : Z;
  open_errno : Z;
  new_from_fd_ret : Z;
  node_caps : gmap (Z * Z) Z;
  node_pending : list reply
}.

(** [strncmp(EVENT_DEV_NAME, dir->d_name, 5) == 0]: the name starts with
    the five characters of "event". *)
Definition is_event_device (dir : input_node) : bool :=
  String.prefix EVENT_DEV_NAME (d_name dir).

(** [scandir(DEV_INPUT_EVENT, &namelist, is_event_device, versionsort)].
    The directory is given by its entries in version order, or [None] when
    it cannot be read.  On failure the result is -1 and [namelist] is not
    assigned: the C library stores the array only when it has built one. *)
Definition scandir (fs : option (list input_node))
  : M (Z * option (list input_node)) :=
  emit Scandir ;;;
  match fs with
  | None => ret (-1, None)
  | Some entries =>
      let l := List.filter is_event_device entries in
      ret (Z.of_nat (length l), Some l)
  end.

(** Lines 68-102: the probe loop, with [continue] and [break] as written.
    [snprintf] cannot truncate here: a [d_name] has at most 255
    characters. *)
Fixpoint probe_candidates (namelist : list input_node) : M (option libevdev) :=
  match namelist with
  | [] => ret None
  | c :: rest =>
      let fname := (DEV_INPUT_EVENT ++ "/" ++ d_name c)%string in
      emit (LogDebug fname) ;;;
      emit (Open fname) ;;;
      let d := open_ret c in
      if d <? 0 then
        emit (LogWarn fname (open_errno c)) ;;;
        probe_candidates rest
      else
        emit (LibevdevNewFromFd d) ;;;
        let err := new_from_fd_ret c in
        if err <? 0 then
          emit (LogWarn fname (- err)) ;;;
          emit (Close d) ;;;
          probe_candidates rest
        else
          let dev := Libevdev d (node_caps c) (node_pending c) in
          if libevdev_has_event_code dev EV_SW SW_HEADPHONE_INSERT then
            ret (Some dev)
          else
            emit (LibevdevFree d) ;;;
            emit (Close d) ;;;
            probe_candidates rest
  end.

(** [namelist] is a local without initialiser: it holds an array only once
    [scandir] has succeeded.  The closing [free(namelist)] is unconditional,
    so after a failed [scandir] it frees an indeterminate pointer. *)
Definition find_switch_evdev (fs : option (list input_node)) : M (option libevdev) :=
  r <- scandir fs ;;
  let ndev := fst r in
  let namelist := snd r in
  ret' <- probe_candidates (take (Z.to_nat ndev) (default [] namelist)) ;;
  match namelist with
  | None => undefined
  | Some _ => emit FreeNamelist ;;; ret ret'
  end.

(** ** Life cycle *)

(** [pa_xnew0(pa_droid_extevdev, 1)]: every field zero. *)
Definition pa_xnew0 : pa_droid_extevdev := Monitor None None false false false.

Definition pa_droid_extevdev_free (u : pa_droid_extevdev) : M unit :=
  match event u with
  | Some e => emit (IoFree e)
  | None => ret tt
  end ;;;
  match evdev_dev u with
  | Some dev =>
      let d := libevdev_get_fd dev in
      emit (LibevdevFree d) ;;;
      emit (Close d)
  | None => ret tt
  end ;;;
  emit Xfree.

(** [core] and [card] are taken to be non-null (the two assertions), and
    [io_new] to hand back a registration, as the main loop does. *)
Definition pa_droid_extevdev_new (fs : option (list input_node))
  : M (option pa_droid_extevdev) :=
  let u := pa_xnew0 in
  dev <- find_switch_evdev fs ;;
  let u := set_evdev_dev dev u in
  match evdev_dev u with
  | None =>
      pa_droid_extevdev_free u ;;;
      ret None
  | Some d =>
      emit (IoNew (libevdev_get_fd d)) ;;;
      let u := set_event (Some (libevdev_get_fd d)) u in
      u <- read_initial_switch_values u ;;
      ret (Some u)
  end.

(** * Vocabulary of the statements *)

(** What the body of either [for] loop of [notify_ports] does to the
    registry and which calls it makes, for one port name. *)
Definition set_if_present (name : string) (a : pa_available_t)
    (reg : gmap string pa_available_t) : gmap string pa_available_t :=
  match reg !! name with
  | Some _ => <[name := a]> reg
  | None => reg
  end.

Definition port_calls (name : string) (a : pa_available_t)
    (reg : gmap string pa_available_t) : list action :=
  HashmapGet name ::
  match reg !! name with
  | Some _ => [SetAvailable name a]
  | None => []
  end.

Definition notify_registry (u : pa_droid_extevdev)
    (reg : gmap string pa_available_t) : gmap string pa_available_t :=
  set_if_present "input-wired_headset" (has_headset u)
    (set_if_present "output-wired_headset" (has_headset u)
       (set_if_present "output-wired_headphone" (has_headphone u) reg)).

Definition notify_trace (u : pa_droid_extevdev)
    (reg : gmap string pa_available_t) : list action :=
  Notified (has_headphone u) (has_headset u) ::
  port_calls "output-wired_headphone" (has_headphone u) reg ++
  port_calls "output-wired_headset" (has_headset u) reg ++
  port_calls "input-wired_headset" (has_headset u) reg.

(** The policy in the specification's words: the two decisions as a pair
    (headphone_available, headset_available). *)
Definition spec_availability_policy (headphone_insert microphone_insert lineout_insert : bool)
  : bool * bool :=
  ((headphone_insert || lineout_insert) && negb microphone_insert,
   (headphone_insert || lineout_insert) && microphone_insert).

Definition availability (b : bool) : pa_available_t :=
  if b then PA_AVAILABLE_YES else PA_AVAILABLE_NO.

(** The trace grows by calls none of which unregisters the callback. *)
Definition no_io_free (tr : list action) : Prop := forall d, IoFree d ∉ tr.

Definition extends_quietly (w w' : world) : Prop :=
  exists tr, trace w' = trace w ++ tr /\ no_io_free tr.

(** Passes the loop can still need: one to see [-EAGAIN] in normal mode,
    one more to leave sync mode, one for every scripted answer. *)
Definition passes_needed (flags : read_flag) (dev : libevdev) : nat :=
  match pending dev, flags with
  | [], LIBEVDEV_READ_FLAG_NORMAL => 1
  | [], LIBEVDEV_READ_FLAG_SYNC => 2
  | _ :: q, _ => length q + 3
  end.

(** Number of runs of [notify_ports] recorded in a trace. *)
Definition is_notified (a : action) : bool :=
  match a with
  | Notified _ _ => true
  | _ => false
  end.

Definition evaluations (tr : list action) : nat :=
  length (List.filter is_notified tr).

(** A headphone insertion read normally, then the kernel's notice that
    events were dropped, then the snapshot the device offers in sync mode
    (headphone 1, microphone 1), closed by the report marker. *)
Definition resync_script : list reply :=
  [ Reply LIBEVDEV_READ_STATUS_SUCCESS (InputEvent EV_SW SW_HEADPHONE_INSERT 1);
    Reply LIBEVDEV_READ_STATUS_SYNC (InputEvent EV_SYN SYN_DROPPED 0);
    Reply LIBEVDEV_READ_STATUS_SYNC (InputEvent EV_SW SW_HEADPHONE_INSERT 1);
    Reply LIBEVDEV_READ_STATUS_SYNC (InputEvent EV_SW SW_MICROPHONE_INSERT 1);
    Reply LIBEVDEV_READ_STATUS_SYNC (InputEvent EV_SYN SYN_REPORT 0) ].

(** The same, with the report marker arriving as a normal event once the
    snapshot is used up. *)
Definition resync_script_late_report : list reply :=
  [ Reply LIBEVDEV_READ_STATUS_SUCCESS (InputEvent EV_SW SW_HEADPHONE_INSERT 1);
    Reply LIBEVDEV_READ_STATUS_SYNC (InputEvent EV_SYN SYN_DROPPED 0);
    Reply LIBEVDEV_READ_STATUS_SYNC (InputEvent EV_SW SW_HEADPHONE_INSERT 1);
    Reply LIBEVDEV_READ_STATUS_SYNC (InputEvent EV_SW SW_MICROPHONE_INSERT 1);
    Reply (- EAGAIN) (InputEvent 0 0 0);
    Reply LIBEVDEV_READ_STATUS_SUCCESS (InputEvent EV_SYN SYN_REPORT 0) ].

(** The decoding context [libevdev_new_from_fd] builds for a node. *)
Definition device_of (c : input_node) : libevdev :=
  Libevdev (open_ret c) (node_caps c) (node_pending c).

(** A candidate qualifies when it opens, yields a decoding context and
    reports the headphone-insertion switch. *)
Definition qualifies (c : input_node) : bool :=
  (0 <=? open_ret c) && (0 <=? new_from_fd_ret c) &&
  bool_decide (is_Some (node_caps c !! (EV_SW, SW_HEADPHONE_INSERT))).

Definition node_path (c : input_node) : string :=
  (DEV_INPUT_EVENT ++ "/" ++ d_name c)%string.

(** Calls made for a candidate that is passed over, by the reason. *)
Definition reject_trace (c : input_node) : list action :=
  [LogDebug (node_path c); Open (node_path c)] ++
  if open_ret c <? 0 then
    [LogWarn (node_path c) (open_errno c)]
  else
    LibevdevNewFromFd (open_ret c) ::
    if new_from_fd_ret c <? 0 then
      [LogWarn (node_path c) (- new_from_fd_ret c); Close (open_ret c)]
    else
      [LibevdevFree (open_ret c); Close (open_ret c)].

(** Calls made for the candidate that is chosen. *)
Definition accept_trace (c : input_node) : list action :=
  [LogDebug (node_path c); Open (node_path c); LibevdevNewFromFd (open_ret c)].

Fixpoint probe_trace (l : list input_node) : list action :=
  match l with
  | [] => []
  | c :: rest =>
      if qualifies c then accept_trace c else reject_trace c ++ probe_trace rest
  end.

(** The candidates [scandir] hands to the loop. *)
Definition candidates (entries : list input_node) : list input_node :=
  List.filter is_event_device entries.

(** The cached value of a switch code, if the device supports the code. *)
Definition cached (dev : libevdev) (code : Z) : option Z :=
  caps dev !! (EV_SW, code).

(** Present exactly when supported with a cached value other than zero. *)
Definition present (o : option Z) : bool :=
  match o with
  | Some v => bool_of_int v
  | None => false
  end.

Definition initial_fetches : list action :=
  [FetchEventValue SW_HEADPHONE_INSERT;
   FetchEventValue SW_MICROPHONE_INSERT;
   FetchEventValue SW_LINEOUT_INSERT].

Definition free_trace (u : pa_droid_extevdev) : list action :=
  match event u with
  | Some e => [IoFree e]
  | None => []
  end ++
  match evdev_dev u with
  | Some dev => [LibevdevFree (fd dev); Close (fd dev)]
  | None => []
  end ++
  [Xfree].

(** The monitor a successful creation hands back for a chosen node. *)
Definition monitor_of (c : input_node) : pa_droid_extevdev :=
  Monitor (Some (device_of c)) (Some (open_ret c))
          (present (cached (device_of c) SW_HEADPHONE_INSERT))
          (present (cached (device_of c) SW_MICROPHONE_INSERT))
          (present (cached (device_of c) SW_LINEOUT_INSERT)).

(** Calls of a successful creation after the selector has returned. *)
Definition activation_trace (c : input_node)
    (reg : gmap string pa_available_t) : list action :=
  IoNew (open_ret c) :: initial_fetches ++ notify_trace (monitor_of c) reg.

(** [/dev/input] of a phone: a node that is not an event device, one that
    cannot be opened, one libevdev refuses, a keypad without switches, the
    jack (headphone switch supported and open, microphone switch closed,
    no line-out switch), and a second jack that is never reached. *)
Definition example_jack : input_node :=
  InputNode "event3" 7 0 0
            {[ (EV_SW, SW_HEADPHONE_INSERT) := 0;
               (EV_SW, SW_MICROPHONE_INSERT) := 1 ]} [].

Definition example_dir : list input_node :=
  [ InputNode "mice" 3 0 0 ∅ [];
    InputNode "event0" (-1) EACCES 0 ∅ [];
    InputNode "event1" 5 0 (- ENODEV) ∅ [];
    InputNode "event2" 6 0 0 {[ (EV_KEY, 116) := 0 ]} [];
    example_jack;
    InputNode "event10" 8 0 0 {[ (EV_SW, SW_HEADPHONE_INSERT) := 1 ]} [] ].

Definition example_card : gmap string pa_available_t :=
  {[ "output-speaker"%string := PA_AVAILABLE_UNKNOWN;
     "output-wired_headphone"%string := PA_AVAILABLE_UNKNOWN;
     "output-wired_headset"%string := PA_AVAILABLE_UNKNOWN;
     "input-wired_headset"%string := PA_AVAILABLE_UNKNOWN ]}.

Definition example_world : world := World example_card [].

Definition is_registration (a : action) : bool :=
  match a with
  | IoNew _ => true
  | _ => false
  end.

Definition is_initial_read (a : action) : bool :=
  match a with
  | FetchEventValue _ => true
  | _ => false
  end.

Definition is_next_event (a : action) : bool :=
  match a with
  | NextEvent _ => true
  | _ => false
  end.

(** Every call of the first kind comes before every call of the second. *)
Definition all_before (P Q : action -> bool) (tr : list action) : Prop :=
  forall (i j : nat) (a b : action),
    tr !! i = Some a -> tr !! j = Some b ->
    P a = true -> Q b = true -> (i < j)%nat.

Definition selector_call (a : action) : Prop :=
  is_registration a = false /\ is_initial_read a = false /\ is_next_event a = false.

(** ** Vocabulary of the further properties *)

(** The switch update of lines 183-197 as a function of the monitor. *)
Definition apply_switch (ev : input_event) (u : pa_droid_extevdev)
  : pa_droid_extevdev :=
  if ev_type ev =? EV_SW then
    if ev_code ev =? SW_HEADPHONE_INSERT then
      set_sw_headphone_insert (bool_of_int (ev_value ev)) u
    else if ev_code ev =? SW_MICROPHONE_INSERT then
      set_sw_microphone_insert (bool_of_int (ev_value ev)) u
    else if ev_code ev =? SW_LINEOUT_INSERT then
      set_sw_lineout_insert (bool_of_int (ev_value ev)) u
    else u
  else u.

(** The report marker of line 198. *)
Definition is_report (ev : input_event) : bool :=
  (ev_type ev =? EV_SYN) && (ev_code ev =? SYN_REPORT).

(** A switch event with code [code]. *)
Definition is_switch (code : Z) (ev : input_event) : bool :=
  (ev_type ev =? EV_SW) && (ev_code ev =? code).

Definition recognised_switch (ev : input_event) : bool :=
  is_switch SW_HEADPHONE_INSERT ev || is_switch SW_MICROPHONE_INSERT ev ||
  is_switch SW_LINEOUT_INSERT ev.

(** Monitor and world after one read that delivered [ev] under [flags]. *)
Definition after_event (flags : read_flag) (s : pa_droid_extevdev * world)
    (ev : input_event) : pa_droid_extevdev * world :=
  let w1 := World (ports s.2) (trace s.2 ++ [NextEvent flags]) in
  (apply_switch ev s.1,
   if is_report ev then
     World (notify_registry s.1 (ports w1)) (trace w1 ++ notify_trace s.1 (ports w1))
   else w1).

Definition after_events (flags : read_flag) (evs : list input_event)
    (s : pa_droid_extevdev * world) : pa_droid_extevdev * world :=
  fold_left (after_event flags) evs s.

(** The same on switch state and registry alone: events applied in order,
    the registry rewritten at every report marker. *)
Definition replay_event (s : pa_droid_extevdev * gmap string pa_available_t)
    (ev : input_event) : pa_droid_extevdev * gmap string pa_available_t :=
  (apply_switch ev s.1, if is_report ev then notify_registry s.1 s.2 else s.2).

Definition replay (evs : list input_event)
    (s : pa_droid_extevdev * gmap string pa_available_t)
  : pa_droid_extevdev * gmap string pa_available_t :=
  fold_left replay_event evs s.

(** The value carried by the last switch event with code [code]. *)
Definition last_value (code : Z) (evs : list input_event) : option Z :=
  fold_left (fun acc ev => if is_switch code ev then Some (ev_value ev) else acc)
            evs None.

(** A read status under which the loop hands the event to the handlers
    without changing mode. *)
Definition delivered (flags : read_flag) (err : Z) : Prop :=
  err = LIBEVDEV_READ_STATUS_SUCCESS \/
  (err = LIBEVDEV_READ_STATUS_SYNC /\ flags = LIBEVDEV_READ_FLAG_SYNC).

(** The three switch booleans of a monitor. *)
Definition switches (u : pa_droid_extevdev) : bool * bool * bool :=
  (sw_headphone_insert u, sw_microphone_insert u, sw_lineout_insert u).

(** Calls the read loop can make. *)
Definition drain_call (a : action) : bool :=
  match a with
  | NextEvent _ | LogError _ | Notified _ _ | HashmapGet _ | SetAvailable _ _ => true
  | _ => false
  end.

(** Descriptors in use after a call, given those in use before it.  A
    descriptor that [open] returned is first seen when it is handed to
    [libevdev_new_from_fd]. *)
Fixpoint remove_first (d : Z) (l : list Z) : list Z :=
  match l with
  | [] => []
  | x :: l' => if x =? d then l' else x :: remove_first d l'
  end.

Definition track_descriptor (held : list Z) (a : action) : list Z :=
  match a with
  | LibevdevNewFromFd d => d :: held
  | Close d => remove_first d held
  | _ => held
  end.

(** Registrations with the main loop after a call. *)
Definition track_registration (held : list Z) (a : action) : list Z :=
  match a with
  | IoNew d => d :: held
  | IoFree d => remove_first d held
  | _ => held
  end.

(** Paths handed to [open], and availabilities written, in call order. *)
Definition opened_paths (tr : list action) : list string :=
  omap (fun a => match a with Open p => Some p | _ => None end) tr.

Definition writes (tr : list action) : list (string * pa_available_t) :=
  omap (fun a => match a with SetAvailable n v => Some (n, v) | _ => None end) tr.

Definition log_errors (tr : list action) : list Z :=
  omap (fun a => match a with LogError e => Some e | _ => None end) tr.

(** Create a monitor, let the callback drain once, destroy the monitor. *)
Definition create_drain_destroy (fs : option (list input_node)) : M unit :=
  m <- pa_droid_extevdev_new fs ;;
  match m with
  | None => ret tt
  | Some u =>
      u' <- evdev_cb u ;;
      pa_droid_extevdev_free u'
  end.

(** A monitor with a script to drain: a headset unplugged one switch at a
    time, with a lid event in between. *)
Definition example_unplug_script : list reply :=
  [ Reply LIBEVDEV_READ_STATUS_SUCCESS (InputEvent EV_SW SW_MICROPHONE_INSERT 0);
    Reply LIBEVDEV_READ_STATUS_SUCCESS (InputEvent EV_SYN SYN_REPORT 0);
    Reply LIBEVDEV_READ_STATUS_SUCCESS (InputEvent EV_SW SW_HEADPHONE_INSERT 0);
    Reply LIBEVDEV_READ_STATUS_SUCCESS (InputEvent EV_SW SW_LID 1);
    Reply LIBEVDEV_READ_STATUS_SUCCESS (InputEvent EV_SYN SYN_REPORT 0) ].

Definition example_monitor (script : list reply) : pa_droid_extevdev :=
  Monitor (Some (Libevdev 7 ∅ script)) (Some 7) true true false.

(** A script without any insertion-switch event: a dropped-events notice,
    a snapshot with a lid event and a report marker, then a failed read. *)
Definition example_quiet_script : list reply :=
  [ Reply LIBEVDEV_READ_STATUS_SYNC (InputEvent EV_SYN SYN_DROPPED 0);
    Reply LIBEVDEV_READ_STATUS_SYNC (InputEvent EV_SW SW_LID 1);
    Reply LIBEVDEV_READ_STATUS_SYNC (InputEvent EV_SYN SYN_REPORT 0);
    Reply (- ENODEV) ev_uninit ].

(** ** The read protocol in the specification's words *)

(** What a read can report besides an event. *)
Inductive read_outcome :=
  | WouldBlock
  | ResyncRequired (ev : input_event)
  | HardError (err : Z)
  | GotEvent (ev : input_event).

(** libevdev's return values read as outcomes: [-EAGAIN] is would-block,
    [LIBEVDEV_READ_STATUS_SYNC] is resync-required, any other negative
    value is a hard error, everything else delivered an event. *)
Definition outcome_of (r : reply) : read_outcome :=
  if r_err r =? - EAGAIN then WouldBlock
  else if r_err r =? LIBEVDEV_READ_STATUS_SYNC then ResyncRequired (r_ev r)
  else if r_err r <? 0 then HardError (r_err r)
  else GotEvent (r_ev r).

Definition after_call (a : action) (w : world) : world :=
  World (ports w) (trace w ++ [a]).

(** One wake-up as the protocol prescribes it, outcome by outcome, on the
    answers the device has queued (an exhausted queue would block):
    monitor, answers left unread, and world at the end of the drain.
    - would-block in NORMAL mode ends the drain;
    - would-block in RESYNC mode reverts to NORMAL and reads on;
    - resync-required in NORMAL mode switches to RESYNC and reads on;
    - resync-required in RESYNC mode handles the snapshot event and stays
      in RESYNC;
    - a hard error is logged and ends the drain;
    - an event is handled and the mode stays. *)
Fixpoint protocol_drain (mode : read_flag) (script : list reply)
    (s : pa_droid_extevdev * world) : pa_droid_extevdev * list reply * world :=
  match script with
  | [] =>
      match mode with
      | LIBEVDEV_READ_FLAG_NORMAL =>
          (s.1, [], after_call (NextEvent LIBEVDEV_READ_FLAG_NORMAL) s.2)
      | LIBEVDEV_READ_FLAG_SYNC =>
          (s.1, [],
           after_call (NextEvent LIBEVDEV_READ_FLAG_NORMAL)
             (after_call (NextEvent LIBEVDEV_READ_FLAG_SYNC) s.2))
      end
  | r :: q =>
      match outcome_of r, mode with
      | WouldBlock, LIBEVDEV_READ_FLAG_NORMAL =>
          (s.1, q, after_call (NextEvent mode) s.2)
      | WouldBlock, LIBEVDEV_READ_FLAG_SYNC =>
          protocol_drain LIBEVDEV_READ_FLAG_NORMAL q
            (s.1, after_call (NextEvent mode) s.2)
      | ResyncRequired _, LIBEVDEV_READ_FLAG_NORMAL =>
          protocol_drain LIBEVDEV_READ_FLAG_SYNC q
            (s.1, after_call (NextEvent mode) s.2)
      | ResyncRequired ev, LIBEVDEV_READ_FLAG_SYNC =>
          protocol_drain LIBEVDEV_READ_FLAG_SYNC q (after_event mode s ev)
      | HardError err, _ =>
          (s.1, q, after_call (LogError (- err)) (after_call (NextEvent mode) s.2))
      | GotEvent ev, _ =>
          protocol_drain mode q (after_event mode s ev)
      end
  end.

(** How a wake-up may end: on a read in NORMAL mode after which nothing
    more is done (it would have blocked), or on the log of a hard error. *)
Definition ends_on_would_block_or_error (tr : list action) : Prop :=
  last tr = Some (NextEvent LIBEVDEV_READ_FLAG_NORMAL) \/
  exists e, last tr = Some (LogError e).

(** * Properties *)

(** ** The port registry after a notification *)

Lemma lookup_set_if_present name a reg k :
  set_if_present name a reg !! k =
  if decide (k = name) then (fun _ => a) <$> reg !! k else reg !! k.
Proof.
  unfold set_if_present. case_decide as Hk.
  - subst k. destruct (reg !! name) eqn:E; simpl.
    + by rewrite lookup_insert_eq.
    + by rewrite E.
  - destruct (reg !! name) eqn:E; [|done].
    by rewrite lookup_insert_ne.
Qed.

Lemma lookup_set_if_present_ne name a reg k :
  k ≠ name -> set_if_present name a reg !! k = reg !! k.
Proof. intros. rewrite lookup_set_if_present. by case_decide. Qed.

Lemma bind_returns {A B} (m : M A) (k : A -> M B) w a w' :
  m w = Returns a w' -> bind m k w = k a w'.
Proof. unfold bind. by intros ->. Qed.

Lemma port_step_run name a w :
  (p <- pa_hashmap_get name ;;
   match p with
   | Some p => pa_device_port_set_available p a
   | None => ret tt
   end) w =
  Returns tt (World (set_if_present name a (ports w))
                    (trace w ++ port_calls name a (ports w))).
Proof.
  destruct w as [reg tr].
  unfold bind, pa_hashmap_get, pa_device_port_set_available, ret,
    set_if_present, port_calls; simpl.
  destruct (reg !! name); simpl; by rewrite <- ?app_assoc.
Qed.

Lemma port_calls_set_if_present name a name' a' reg :
  name ≠ name' ->
  port_calls name a (set_if_present name' a' reg) = port_calls name a reg.
Proof.
  intros Hne. unfold port_calls.
  by rewrite lookup_set_if_present_ne.
Qed.

Lemma notify_ports_run u w :
  notify_ports u w =
  Returns tt (World (notify_registry u (ports w))
                    (trace w ++ notify_trace u (ports w))).
Proof.
  unfold notify_ports, headphone_ports, headset_ports, for_each.
  erewrite bind_returns by reflexivity.
  erewrite bind_returns.
  2:{ erewrite bind_returns by apply port_step_run. reflexivity. }
  erewrite bind_returns by apply port_step_run.
  erewrite bind_returns by apply port_step_run.
  unfold ret, notify_registry, notify_trace; cbn [ports trace].
  rewrite !port_calls_set_if_present by done.
  by rewrite <- !app_assoc.
Qed.

Lemma lookup_notify_registry_headphone u reg name :
  name ∈ headphone_ports ->
  notify_registry u reg !! name = (fun _ => has_headphone u) <$> reg !! name.
Proof.
  unfold headphone_ports. intros ->%list_elem_of_singleton.
  unfold notify_registry.
  rewrite !lookup_set_if_present.
  repeat case_decide; done.
Qed.

Lemma lookup_notify_registry_headset u reg name :
  name ∈ headset_ports ->
  notify_registry u reg !! name = (fun _ => has_headset u) <$> reg !! name.
Proof.
  unfold headset_ports. intros H.
  apply elem_of_cons in H as [-> | ->%list_elem_of_singleton];
    unfold notify_registry; rewrite !lookup_set_if_present;
    repeat case_decide; done.
Qed.

Lemma lookup_notify_registry_other u reg name :
  name ∉ headphone_ports -> name ∉ headset_ports ->
  notify_registry u reg !! name = reg !! name.
Proof.
  unfold headphone_ports, headset_ports. intros H1 H2.
  unfold notify_registry. rewrite !lookup_set_if_present.
  repeat case_decide; subst; try done; exfalso; set_solver.
Qed.

(** ** Availability policy *)

(** C2: for every switch state, [notify_ports] computes the pair
    headphone_available = (headphone_insert OR lineout_insert) AND NOT
    microphone_insert, headset_available = (headphone_insert OR
    lineout_insert) AND microphone_insert, and pushes exactly that pair to
    the registry: every headphone-class port of the card receives the
    first decision, every headset-class port the second, no other port
    changes.  On the states (true,false,false), (true,true,false) and
    (false,true,false), given as (headphone, microphone, line-out), the
    pair is (yes,no), (no,yes) and (no,no). *)
Theorem notify_ports_availability_policy :
  forall (u : pa_droid_extevdev) (w : world),
    let p := spec_availability_policy (sw_headphone_insert u)
                                 (sw_microphone_insert u)
                                 (sw_lineout_insert u) in
    (has_headphone u = availability p.1 /\ has_headset u = availability p.2) /\
    (exists w' calls,
        notify_ports u w = Returns tt w' /\
        trace w' = trace w ++ Notified (availability p.1) (availability p.2) :: calls /\
        (forall name, name ∈ headphone_ports ->
           ports w' !! name = (fun _ => availability p.1) <$> ports w !! name) /\
        (forall name, name ∈ headset_ports ->
           ports w' !! name = (fun _ => availability p.2) <$> ports w !! name) /\
        (forall name, name ∉ headphone_ports -> name ∉ headset_ports ->
           ports w' !! name = ports w !! name)) /\
    (forall d e,
        let at_state hp mic lo :=
          (has_headphone (Monitor d e hp mic lo), has_headset (Monitor d e hp mic lo)) in
        at_state true false false = (PA_AVAILABLE_YES, PA_AVAILABLE_NO) /\
        at_state true true false = (PA_AVAILABLE_NO, PA_AVAILABLE_YES) /\
        at_state false true false = (PA_AVAILABLE_NO, PA_AVAILABLE_NO)).
Proof.
  intros u w p.
  assert (Hhp : has_headphone u = availability p.1) by reflexivity.
  assert (Hhs : has_headset u = availability p.2) by reflexivity.
  split; [done|]. split; [|by intros d e].
  eexists _, _. split; [apply notify_ports_run|].
  cbn [ports trace]. unfold notify_trace. rewrite <- Hhp, <- Hhs.
  split; [reflexivity|].
  split; [|split].
  - intros name Hn. by apply lookup_notify_registry_headphone.
  - intros name Hn. by apply lookup_notify_registry_headset.
  - intros name H1 H2. by apply lookup_notify_registry_other.
Qed.

(** C3: on each of the eight switch states the pair of decisions is one of
    (no,no), (yes,no), (no,yes), never (yes,yes); accordingly, after a
    notification no headphone-class port and headset-class port of the
    card are both marked available. *)
Theorem availability_never_both :
  forall (u : pa_droid_extevdev) (w : world),
    ((has_headphone u, has_headset u) = (PA_AVAILABLE_NO, PA_AVAILABLE_NO) \/
     (has_headphone u, has_headset u) = (PA_AVAILABLE_YES, PA_AVAILABLE_NO) \/
     (has_headphone u, has_headset u) = (PA_AVAILABLE_NO, PA_AVAILABLE_YES)) /\
    ~ (has_headphone u = PA_AVAILABLE_YES /\ has_headset u = PA_AVAILABLE_YES) /\
    exists w',
      notify_ports u w = Returns tt w' /\
      forall n1 n2, n1 ∈ headphone_ports -> n2 ∈ headset_ports ->
        ~ (ports w' !! n1 = Some PA_AVAILABLE_YES /\
           ports w' !! n2 = Some PA_AVAILABLE_YES).
Proof.
  intros u w.
  assert (Hex : ~ (has_headphone u = PA_AVAILABLE_YES /\
                   has_headset u = PA_AVAILABLE_YES)).
  { unfold has_headphone, has_headset.
    destruct (sw_headphone_insert u), (sw_microphone_insert u),
      (sw_lineout_insert u); simpl; intros [? ?]; discriminate. }
  split; [|split; [exact Hex|]].
  - unfold has_headphone, has_headset.
    destruct (sw_headphone_insert u), (sw_microphone_insert u),
      (sw_lineout_insert u); simpl; auto.
  - eexists. split; [apply notify_ports_run|].
    cbn [ports]. intros n1 n2 H1 H2 [E1 E2].
    rewrite lookup_notify_registry_headphone in E1 by done.
    rewrite lookup_notify_registry_headset in E2 by done.
    apply Hex. split.
    + destruct (ports w !! n1); simpl in E1; congruence.
    + destruct (ports w !! n2); simpl in E2; congruence.
Qed.

(** ** Events and the switch state *)

Lemma handle_event_switch ev u w :
  ev_type ev = EV_SW ->
  handle_event ev u w =
  Returns (if ev_code ev =? SW_HEADPHONE_INSERT then
             set_sw_headphone_insert (bool_of_int (ev_value ev)) u
           else if ev_code ev =? SW_MICROPHONE_INSERT then
             set_sw_microphone_insert (bool_of_int (ev_value ev)) u
           else if ev_code ev =? SW_LINEOUT_INSERT then
             set_sw_lineout_insert (bool_of_int (ev_value ev)) u
           else u) w.
Proof.
  intros Ht. unfold handle_event. rewrite Ht, Z.eqb_refl.
  repeat case_match; reflexivity.
Qed.

Lemma handle_event_report ev u w :
  ev_type ev = EV_SYN -> ev_code ev = SYN_REPORT ->
  handle_event ev u w =
  Returns u (World (notify_registry u (ports w))
                   (trace w ++ notify_trace u (ports w))).
Proof.
  intros Ht Hc. unfold handle_event. rewrite Ht, Hc. simpl.
  by erewrite bind_returns by apply notify_ports_run.
Qed.

Lemma handle_event_ignored ev u w :
  ev_type ev ≠ EV_SW ->
  ~ (ev_type ev = EV_SYN /\ ev_code ev = SYN_REPORT) ->
  handle_event ev u w = Returns u w.
Proof.
  intros Hsw Hsyn. unfold handle_event.
  destruct (ev_type ev =? EV_SW) eqn:E1; [apply Z.eqb_eq in E1; done|].
  destruct (ev_type ev =? EV_SYN) eqn:E2; simpl; [|done].
  destruct (ev_code ev =? SYN_REPORT) eqn:E3; [|done].
  apply Z.eqb_eq in E2, E3. tauto.
Qed.

(** C8: a switch event with one of the three insertion codes changes the
    boolean of that code and neither of the other two; a switch event with
    any other code changes nothing and the loop goes on as after any event;
    an event of another type leaves the three booleans alone, and among
    those only the report marker (EV_SYN, SYN_REPORT) runs [notify_ports];
    every other one leaves registry and trace untouched too. *)
Theorem handle_event_frame :
  forall (ev : input_event) (u : pa_droid_extevdev) (w : world),
    exists u' w',
      handle_event ev u w = Returns u' w' /\
      evdev_dev u' = evdev_dev u /\ event u' = event u /\
      (ev_type ev = EV_SW ->
         w' = w /\
         (ev_code ev = SW_HEADPHONE_INSERT ->
            sw_microphone_insert u' = sw_microphone_insert u /\
            sw_lineout_insert u' = sw_lineout_insert u /\
            sw_headphone_insert u' = bool_of_int (ev_value ev)) /\
         (ev_code ev = SW_MICROPHONE_INSERT ->
            sw_headphone_insert u' = sw_headphone_insert u /\
            sw_lineout_insert u' = sw_lineout_insert u /\
            sw_microphone_insert u' = bool_of_int (ev_value ev)) /\
         (ev_code ev = SW_LINEOUT_INSERT ->
            sw_headphone_insert u' = sw_headphone_insert u /\
            sw_microphone_insert u' = sw_microphone_insert u /\
            sw_lineout_insert u' = bool_of_int (ev_value ev)) /\
         (ev_code ev ≠ SW_HEADPHONE_INSERT ->
          ev_code ev ≠ SW_MICROPHONE_INSERT ->
          ev_code ev ≠ SW_LINEOUT_INSERT -> u' = u)) /\
      (ev_type ev ≠ EV_SW ->
         u' = u /\
         (ev_type ev = EV_SYN /\ ev_code ev = SYN_REPORT ->
            notify_ports u w = Returns tt w' /\
            Notified (has_headphone u) (has_headset u) ∈ trace w') /\
         (~ (ev_type ev = EV_SYN /\ ev_code ev = SYN_REPORT) -> w' = w)).
Proof.
  intros ev u w.
  destruct (decide (ev_type ev = EV_SW)) as [Hsw | Hsw].
  - eexists _, _. split; [by apply handle_event_switch|].
    destruct (ev_code ev =? SW_HEADPHONE_INSERT) eqn:E1;
      [|destruct (ev_code ev =? SW_MICROPHONE_INSERT) eqn:E2;
        [|destruct (ev_code ev =? SW_LINEOUT_INSERT) eqn:E3]];
      rewrite ?Z.eqb_eq, ?Z.eqb_neq in *;
      (split; [done|]); (split; [done|]);
      (split; [|done]); intros _; (split; [done|]);
      unfold SW_HEADPHONE_INSERT, SW_MICROPHONE_INSERT, SW_LINEOUT_INSERT in *;
      repeat split; intros; simpl; congruence || lia.
  - destruct (decide (ev_type ev = EV_SYN /\ ev_code ev = SYN_REPORT))
      as [[Ht Hc] | Hsyn].
    + eexists _, _. split; [by apply handle_event_report|].
      do 2 (split; [done|]). split; [done|]. intros _.
      split; [done|]. split; [|tauto]. intros _.
      split; [apply notify_ports_run|].
      cbn [trace]. apply elem_of_app. right. unfold notify_trace. left.
    + eexists _, _. split; [by apply handle_event_ignored|].
      do 2 (split; [done|]). split; [done|]. intros _.
      split; [done|]. split; [tauto|done].
Qed.

(** C10: for a switch event with a recognised code, the boolean of that
    code is true afterwards exactly when the event's value is not zero;
    1, 2 and -1 all record the accessory as present. *)
Theorem switch_value_nonzero_is_present :
  forall (ev : input_event) (u : pa_droid_extevdev) (w : world),
    ev_type ev = EV_SW ->
    exists u',
      handle_event ev u w = Returns u' w /\
      (ev_code ev = SW_HEADPHONE_INSERT ->
         (sw_headphone_insert u' = true <-> ev_value ev ≠ 0)) /\
      (ev_code ev = SW_MICROPHONE_INSERT ->
         (sw_microphone_insert u' = true <-> ev_value ev ≠ 0)) /\
      (ev_code ev = SW_LINEOUT_INSERT ->
         (sw_lineout_insert u' = true <-> ev_value ev ≠ 0)).
Proof.
  intros ev u w Hsw.
  assert (Hb : forall v, bool_of_int v = true <-> v ≠ 0).
  { intros v. unfold bool_of_int. rewrite negb_true_iff. apply Z.eqb_neq. }
  eexists. split; [by apply handle_event_switch|].
  split; [|split]; intros Hc; rewrite Hc;
    unfold SW_HEADPHONE_INSERT, SW_MICROPHONE_INSERT, SW_LINEOUT_INSERT;
    cbn -[bool_of_int]; apply Hb.
Qed.

Lemma switch_value_nonzero_is_present_witness :
  ev_type (InputEvent EV_SW SW_HEADPHONE_INSERT 2) = EV_SW /\
  exists u',
    handle_event (InputEvent EV_SW SW_HEADPHONE_INSERT 2) pa_xnew0 (World ∅ [])
      = Returns u' (World ∅ []) /\
    (ev_code (InputEvent EV_SW SW_HEADPHONE_INSERT 2) = SW_HEADPHONE_INSERT ->
       (sw_headphone_insert u' = true <->
        ev_value (InputEvent EV_SW SW_HEADPHONE_INSERT 2) ≠ 0)) /\
    (ev_code (InputEvent EV_SW SW_HEADPHONE_INSERT 2) = SW_MICROPHONE_INSERT ->
       (sw_microphone_insert u' = true <->
        ev_value (InputEvent EV_SW SW_HEADPHONE_INSERT 2) ≠ 0)) /\
    (ev_code (InputEvent EV_SW SW_HEADPHONE_INSERT 2) = SW_LINEOUT_INSERT ->
       (sw_lineout_insert u' = true <->
        ev_value (InputEvent EV_SW SW_HEADPHONE_INSERT 2) ≠ 0)).
Proof.
  split; [reflexivity|].
  apply (switch_value_nonzero_is_present
           (InputEvent EV_SW SW_HEADPHONE_INSERT 2) pa_xnew0 (World ∅ [])).
  reflexivity.
Defined.

(** ** The read loop *)

Lemma extends_quietly_refl w : extends_quietly w w.
Proof. exists []. split; [by rewrite app_nil_r|]. intros d H. inversion H. Qed.

Lemma extends_quietly_trans w1 w2 w3 :
  extends_quietly w1 w2 -> extends_quietly w2 w3 -> extends_quietly w1 w3.
Proof.
  intros (t1 & E1 & H1) (t2 & E2 & H2). exists (t1 ++ t2).
  split; [by rewrite E2, E1, app_assoc|].
  intros d [H | H]%elem_of_app; [by apply (H1 d) | by apply (H2 d)].
Qed.

Lemma extends_quietly_app reg w tr :
  no_io_free tr -> extends_quietly w (World reg (trace w ++ tr)).
Proof. intros H. by exists tr. Qed.

Lemma no_io_free_notify_trace u reg : no_io_free (notify_trace u reg).
Proof.
  intros d H. unfold notify_trace, port_calls in H.
  destruct (reg !! "output-wired_headphone"%string),
    (reg !! "output-wired_headset"%string),
    (reg !! "input-wired_headset"%string); simpl in H;
    repeat (apply elem_of_cons in H as [H | H]; [discriminate|]);
    inversion H.
Qed.

Lemma handle_event_quiet ev u w :
  exists u' w',
    handle_event ev u w = Returns u' w' /\
    evdev_dev u' = evdev_dev u /\ event u' = event u /\
    extends_quietly w w'.
Proof.
  destruct (decide (ev_type ev = EV_SW)) as [Hsw | Hsw].
  - eexists _, _. split; [by apply handle_event_switch|].
    split; [|split; [|apply extends_quietly_refl]];
      repeat case_match; reflexivity.
  - destruct (decide (ev_type ev = EV_SYN /\ ev_code ev = SYN_REPORT))
      as [[Ht Hc] | Hsyn].
    + eexists _, _. split; [by apply handle_event_report|].
      do 2 (split; [done|]).
      apply extends_quietly_app, no_io_free_notify_trace.
    + eexists _, _. split; [by apply handle_event_ignored|].
      do 2 (split; [done|]). apply extends_quietly_refl.
Qed.

Lemma passes_needed_bound flags dev :
  (passes_needed flags dev <= length (pending dev) + 2)%nat.
Proof. unfold passes_needed. destruct (pending dev), flags; simpl; lia. Qed.

Lemma no_io_free_singleton a : (forall d, a ≠ IoFree d) -> no_io_free [a].
Proof.
  intros H d Hin. apply list_elem_of_singleton in Hin. by apply (H d).
Qed.

(** One pass either ends the loop or leaves strictly fewer passes to go;
    it never touches the registration or the device pointer. *)
Lemma evdev_cb_iter_progress flags ev u dev w :
  exists c w',
    evdev_cb_iter flags ev u dev w = Returns c w' /\
    extends_quietly w w' /\
    match c with
    | Break u' dev' =>
        u' = u /\ fd dev' = fd dev /\ caps dev' = caps dev
    | Continue flags' ev' u' dev' =>
        event u' = event u /\ evdev_dev u' = evdev_dev u /\
        fd dev' = fd dev /\ caps dev' = caps dev /\
        (passes_needed flags' dev' < passes_needed flags dev)%nat
    end.
Proof.
  unfold evdev_cb_iter. erewrite bind_returns by reflexivity.
  set (w1 := World (ports w) (trace w ++ [NextEvent flags])).
  assert (Hw1 : extends_quietly w w1) by (by apply extends_quietly_app, no_io_free_singleton).
  unfold libevdev_next_event, passes_needed.
  destruct dev as [d cs [| r q]]; cbn [pending fd caps].
  - simpl. destruct flags; eexists _, _; (split; [reflexivity|]);
      (split; [done|]); simpl; repeat split; lia.
  - assert (Hlen : forall f : read_flag,
               (match q, f with
                | [], LIBEVDEV_READ_FLAG_NORMAL => 1
                | [], LIBEVDEV_READ_FLAG_SYNC => 2
                | _ :: q', _ => length q' + 3
                end < length q + 3)%nat).
    { intros f. destruct q, f; simpl; lia. }
    set (ev' := if r_err r <? 0 then ev else r_ev r).
    destruct (handle_event_quiet ev' u w1) as (u' & w' & Eh & Hd & He & Hq).
    assert (Hproc : exists c w'',
               (u'0 <- handle_event ev' u ;;
                ret (Continue flags ev' u'0 (Libevdev d cs q))) w1 = Returns c w'' /\
               extends_quietly w w'' /\
               match c with
               | Break _ _ => False
               | Continue flags' _ u'' dev' =>
                   event u'' = event u /\ evdev_dev u'' = evdev_dev u /\
                   fd dev' = d /\ caps dev' = cs /\
                   (match pending dev', flags' with
                    | [], LIBEVDEV_READ_FLAG_NORMAL => 1
                    | [], LIBEVDEV_READ_FLAG_SYNC => 2
                    | _ :: q', _ => length q' + 3
                    end < length q + 3)%nat
               end).
    { eexists _, _. split; [by erewrite bind_returns by exact Eh|].
      split; [by eapply extends_quietly_trans|].
      cbn [pending fd caps]. repeat split; try done;
          first [apply Hlen | destruct q; simpl; lia]. }
    destruct (r_err r =? - EAGAIN) eqn:E1.
    { destruct flags; eexists _, _; (split; [reflexivity|]);
        (split; [done|]); cbn [pending fd caps]; repeat split; try done;
        destruct q; simpl; lia. }
    destruct (r_err r =? LIBEVDEV_READ_STATUS_SYNC) eqn:E2.
    { destruct flags.
      - destruct Hproc as (c & w'' & E & Hq' & Hc). exists c, w''.
        split; [exact E|]. split; [done|]. destruct c; [done|]. exact Hc.
      - eexists _, _. split; [reflexivity|]. split; [done|].
        cbn [pending fd caps]. repeat split; try done;
          first [apply Hlen | destruct q; simpl; lia]. }
    destruct (r_err r <? 0) eqn:E3.
    { eexists _, _. split; [by erewrite bind_returns by reflexivity|].
      split; [|done].
      eapply extends_quietly_trans; [exact Hw1|].
      by apply extends_quietly_app, no_io_free_singleton. }
    destruct Hproc as (c & w'' & E & Hq' & Hc). exists c, w''.
    split; [exact E|]. split; [done|]. destruct c; [done|]. exact Hc.
Qed.

Lemma evdev_loop_total fuel :
  forall flags ev u dev w,
    (passes_needed flags dev <= fuel)%nat ->
    exists u' dev' w',
      evdev_loop fuel flags ev u dev w = Returns (u', dev') w' /\
      event u' = event u /\ evdev_dev u' = evdev_dev u /\
      fd dev' = fd dev /\ caps dev' = caps dev /\
      extends_quietly w w'.
Proof.
  induction fuel as [| fuel IH]; intros flags ev u dev w Hfuel.
  - exfalso. unfold passes_needed in Hfuel.
    destruct (pending dev), flags; simpl in Hfuel; lia.
  - destruct (evdev_cb_iter_progress flags ev u dev w) as (c & w1 & E & Hq & Hc).
    cbn [evdev_loop]. erewrite bind_returns by exact E.
    destruct c as [u1 dev1 | flags1 ev1 u1 dev1].
    + destruct Hc as (-> & Hfd & Hcaps). by eexists _, _, _.
    + destruct Hc as (He & Hd & Hfd & Hcaps & Hlt).
      destruct (IH flags1 ev1 u1 dev1 w1) as (u2 & dev2 & w2 & E2 & ? & ? & ? & ? & ?);
        [lia|].
      exists u2, dev2, w2. split; [exact E2|].
      repeat split; try congruence. by eapply extends_quietly_trans.
Qed.

(** The callback returns on every script, with the registration and the
    descriptor it was made for untouched. *)
Lemma evdev_cb_returns u dev w :
  evdev_dev u = Some dev ->
  exists u' dev' w',
    evdev_cb u w = Returns u' w' /\
    event u' = event u /\ evdev_dev u' = Some dev' /\
    fd dev' = fd dev /\ caps dev' = caps dev /\
    extends_quietly w w'.
Proof.
  intros Hdev. unfold evdev_cb. rewrite Hdev.
  destruct (evdev_loop_total (length (pending dev) + 2) LIBEVDEV_READ_FLAG_NORMAL
              ev_uninit u dev w (passes_needed_bound _ _))
    as (u' & dev' & w' & E & He & Hd & Hfd & Hcaps & Hq).
  exists (set_evdev_dev (Some dev') u'), dev', w'.
  split; [by erewrite bind_returns by exact E|]. done.
Qed.

Lemma handle_event_pure ev u w :
  handle_event ev u w =
  Returns (apply_switch ev u)
          (if is_report ev then
             World (notify_registry u (ports w)) (trace w ++ notify_trace u (ports w))
           else w).
Proof.
  unfold apply_switch, is_report.
  destruct (ev_type ev =? EV_SW) eqn:Esw.
  - apply Z.eqb_eq in Esw. rewrite (handle_event_switch _ _ _ Esw).
    rewrite Esw. reflexivity.
  - apply Z.eqb_neq in Esw.
    destruct ((ev_type ev =? EV_SYN) && (ev_code ev =? SYN_REPORT)) eqn:Er.
    + apply andb_true_iff in Er as [Et Ec]. apply Z.eqb_eq in Et, Ec.
      by apply handle_event_report.
    + apply handle_event_ignored; [done|]. intros [Et Ec].
      rewrite Et, Ec in Er. discriminate.
Qed.

Lemma evdev_loop_S n flags ev u dev w :
  evdev_loop (S n) flags ev u dev w =
  match evdev_cb_iter flags ev u dev w with
  | Returns (Break u' dev') w' => Returns (u', dev') w'
  | Returns (Continue flags' ev' u' dev') w' => evdev_loop n flags' ev' u' dev' w'
  | Undefined w' => Undefined w'
  | OutOfFuel w' => OutOfFuel w'
  end.
Proof.
  cbn [evdev_loop]. unfold bind.
  destruct (evdev_cb_iter flags ev u dev w) as [[] | |]; reflexivity.
Qed.

Lemma evdev_cb_iter_unfold flags ev u dev w :
  let err := (libevdev_next_event dev flags ev).1.1 in
  let ev' := (libevdev_next_event dev flags ev).1.2 in
  let dev' := (libevdev_next_event dev flags ev).2 in
  let w1 := World (ports w) (trace w ++ [NextEvent flags]) in
  evdev_cb_iter flags ev u dev w =
  if err =? - EAGAIN then
    match flags with
    | LIBEVDEV_READ_FLAG_SYNC =>
        Returns (Continue LIBEVDEV_READ_FLAG_NORMAL ev' u dev') w1
    | LIBEVDEV_READ_FLAG_NORMAL => Returns (Break u dev') w1
    end
  else if err =? LIBEVDEV_READ_STATUS_SYNC then
    match flags with
    | LIBEVDEV_READ_FLAG_NORMAL =>
        Returns (Continue LIBEVDEV_READ_FLAG_SYNC ev' u dev') w1
    | LIBEVDEV_READ_FLAG_SYNC =>
        (u' <- handle_event ev' u ;; ret (Continue flags ev' u' dev')) w1
    end
  else if err <? 0 then
    Returns (Break u dev')
            (World (ports w) (trace w ++ [NextEvent flags; LogError (- err)]))
  else
    (u' <- handle_event ev' u ;; ret (Continue flags ev' u' dev')) w1.
Proof.
  intros err ev' dev' w1. subst err ev' dev'.
  unfold evdev_cb_iter. erewrite bind_returns by reflexivity.
  destruct (libevdev_next_event dev flags ev) as [[err ev'] dev']. cbn [fst snd].
  repeat case_match; try reflexivity.
  unfold bind, emit, ret; simpl. by rewrite <- app_assoc.
Qed.

(** The fuelled loop and the protocol agree on every script. *)
Lemma evdev_loop_protocol script :
  forall fuel mode ev u d cs w,
    (length script + 2 <= fuel)%nat ->
    evdev_loop fuel mode ev u (Libevdev d cs script) w =
    Returns ((protocol_drain mode script (u, w)).1.1,
             Libevdev d cs (protocol_drain mode script (u, w)).1.2)
            (protocol_drain mode script (u, w)).2.
Proof.
  induction script as [| r q IH]; intros fuel mode ev u d cs w Hfuel.
  - destruct fuel as [| [| n]]; cbn [length] in Hfuel; [lia | lia |].
    destruct mode.
    + rewrite evdev_loop_S, evdev_cb_iter_unfold.
      cbn [libevdev_next_event pending fst snd]. rewrite Z.eqb_refl.
      rewrite evdev_loop_S, evdev_cb_iter_unfold.
      cbn [libevdev_next_event pending fst snd]. rewrite Z.eqb_refl.
      reflexivity.
    + rewrite evdev_loop_S, evdev_cb_iter_unfold.
      cbn [libevdev_next_event pending fst snd]. rewrite Z.eqb_refl.
      reflexivity.
  - destruct fuel as [| n]; cbn [length] in Hfuel; [lia|].
    assert (Hn : (length q + 2 <= n)%nat) by lia.
    rewrite evdev_loop_S, evdev_cb_iter_unfold.
    cbn [libevdev_next_event pending fd caps fst snd protocol_drain].
    unfold outcome_of.
    destruct (r_err r =? - EAGAIN) eqn:E1.
    { destruct mode; [by rewrite IH | reflexivity]. }
    destruct (r_err r =? LIBEVDEV_READ_STATUS_SYNC) eqn:E2.
    { apply Z.eqb_eq in E2. destruct mode; [|by rewrite IH].
      rewrite E2. change (LIBEVDEV_READ_STATUS_SYNC <? 0) with false. cbv iota.
      erewrite bind_returns by apply handle_event_pure.
      unfold ret. by rewrite IH. }
    destruct (r_err r <? 0) eqn:E3.
    { unfold after_call. cbn [fst snd ports trace]. by rewrite <- app_assoc. }
    erewrite bind_returns by apply handle_event_pure.
    unfold ret. by rewrite IH.
Qed.

Lemma evdev_cb_protocol u dev w :
  evdev_cb (set_evdev_dev (Some dev) u) w =
  Returns (set_evdev_dev
             (Some (Libevdev (fd dev) (caps dev)
                      (protocol_drain LIBEVDEV_READ_FLAG_NORMAL (pending dev)
                                      (set_evdev_dev (Some dev) u, w)).1.2))
             (protocol_drain LIBEVDEV_READ_FLAG_NORMAL (pending dev)
                             (set_evdev_dev (Some dev) u, w)).1.1)
          (protocol_drain LIBEVDEV_READ_FLAG_NORMAL (pending dev)
                          (set_evdev_dev (Some dev) u, w)).2.
Proof.
  unfold evdev_cb. cbn [evdev_dev set_evdev_dev].
  destruct dev as [d cs script]. cbn [pending fd caps].
  erewrite bind_returns by (apply evdev_loop_protocol; lia).
  reflexivity.
Qed.

Lemma after_event_trace mode s ev :
  exists tr, trace (after_event mode s ev).2 = trace s.2 ++ NextEvent mode :: tr.
Proof.
  unfold after_event. cbn [snd]. destruct (is_report ev); cbn [ports trace].
  - eexists. by rewrite <- app_assoc.
  - by exists [].
Qed.

(** Every drain the protocol prescribes starts with a read in the mode it
    is in and ends on would-block in NORMAL mode or on a hard error. *)
Lemma protocol_drain_trace script :
  forall mode s,
    exists tr,
      trace (protocol_drain mode script s).2 = trace s.2 ++ NextEvent mode :: tr /\
      ends_on_would_block_or_error (NextEvent mode :: tr).
Proof.
  assert (Hlast : forall (a : action) l1 l2 x,
             last (x :: l2) = Some a -> last (l1 ++ x :: l2) = Some a).
  { intros a l1 l2 x H. by rewrite last_app, H. }
  assert (Hext : forall mode (t0 t1 : list action) mode' tr',
             ends_on_would_block_or_error (NextEvent mode' :: tr') ->
             ends_on_would_block_or_error
               (NextEvent mode :: t1 ++ NextEvent mode' :: tr')).
  { intros mode t0 t1 mode' tr' [H | [e H]]; [left | right; exists e];
      apply (Hlast _ (NextEvent mode :: t1)); exact H. }
  induction script as [| r q IH]; intros mode s.
  - destruct mode; cbn [protocol_drain snd after_call ports trace].
    + exists [NextEvent LIBEVDEV_READ_FLAG_NORMAL].
      split; [by rewrite <- app_assoc|]. by left.
    + exists []. split; [done|]. by left.
  - cbn [protocol_drain].
    destruct (outcome_of r) as [| ev | err | ev].
    + destruct mode.
      * destruct (IH LIBEVDEV_READ_FLAG_NORMAL
                    (s.1, after_call (NextEvent LIBEVDEV_READ_FLAG_SYNC) s.2))
          as (tr & Htr & Hend).
        exists (NextEvent LIBEVDEV_READ_FLAG_NORMAL :: tr).
        rewrite Htr. cbn [snd after_call trace].
        split; [by rewrite <- app_assoc|].
        by apply (Hext _ [] []).
      * exists []. split; [done|]. by left.
    + destruct mode.
      * destruct (after_event_trace LIBEVDEV_READ_FLAG_SYNC s ev) as (t1 & Ht1).
        destruct (IH LIBEVDEV_READ_FLAG_SYNC (after_event LIBEVDEV_READ_FLAG_SYNC s ev))
          as (tr & Htr & Hend).
        exists (t1 ++ NextEvent LIBEVDEV_READ_FLAG_SYNC :: tr).
        rewrite Htr, Ht1. split; [by rewrite <- app_assoc|].
        by apply (Hext _ []).
      * destruct (IH LIBEVDEV_READ_FLAG_SYNC
                    (s.1, after_call (NextEvent LIBEVDEV_READ_FLAG_NORMAL) s.2))
          as (tr & Htr & Hend).
        exists (NextEvent LIBEVDEV_READ_FLAG_SYNC :: tr).
        rewrite Htr. cbn [snd after_call trace].
        split; [by rewrite <- app_assoc|].
        by apply (Hext _ [] []).
    + exists [LogError (- err)]. cbn [snd after_call ports trace].
      split; [by rewrite <- app_assoc|]. right. by exists (- err).
    + destruct (after_event_trace mode s ev) as (t1 & Ht1).
      destruct (IH mode (after_event mode s ev)) as (tr & Htr & Hend).
      exists (t1 ++ NextEvent mode :: tr).
      rewrite Htr, Ht1. split; [by rewrite <- app_assoc|].
      by apply (Hext _ []).
Qed.

(** C1: one wake-up drains the device by the three-outcome protocol.  The
    callback reads in NORMAL mode first and, for every sequence of
    answers the device has queued, ends with exactly the monitor, unread
    answers, registry and calls that the protocol prescribes
    ([protocol_drain]), so it reads until a would-block in NORMAL mode or
    a hard error and no further.  Read by read, with [err] the value the
    read returns: [-EAGAIN] in normal mode ends the drain with the switch
    state as it is; [-EAGAIN] in sync mode puts the loop back in normal
    mode and reads on; [LIBEVDEV_READ_STATUS_SYNC] in normal mode puts the
    loop in sync mode and reads on; [LIBEVDEV_READ_STATUS_SYNC] in sync
    mode hands the event to the switch handlers and reads on, still in
    sync mode; any other negative value is logged and ends the drain.
    Whatever the device answers, the drain returns, the monitor's
    registration is the one it had, and the main loop is never asked to
    drop it. *)
Theorem evdev_cb_three_outcome_protocol :
  forall (flags : read_flag) (ev : input_event) (u : pa_droid_extevdev)
         (dev : libevdev) (w : world) (n : nat),
    let err := (libevdev_next_event dev flags ev).1.1 in
    let ev' := (libevdev_next_event dev flags ev).1.2 in
    let dev' := (libevdev_next_event dev flags ev).2 in
    let w1 := World (ports w) (trace w ++ [NextEvent flags]) in
    (err = - EAGAIN ->
       match flags with
       | LIBEVDEV_READ_FLAG_NORMAL =>
           evdev_loop (S n) flags ev u dev w = Returns (u, dev') w1
       | LIBEVDEV_READ_FLAG_SYNC =>
           evdev_loop (S n) flags ev u dev w =
           evdev_loop n LIBEVDEV_READ_FLAG_NORMAL ev' u dev' w1
       end) /\
    (err = LIBEVDEV_READ_STATUS_SYNC ->
       match flags with
       | LIBEVDEV_READ_FLAG_NORMAL =>
           evdev_loop (S n) flags ev u dev w =
           evdev_loop n LIBEVDEV_READ_FLAG_SYNC ev' u dev' w1
       | LIBEVDEV_READ_FLAG_SYNC =>
           exists u' w',
             handle_event ev' u w1 = Returns u' w' /\
             evdev_loop (S n) flags ev u dev w =
             evdev_loop n LIBEVDEV_READ_FLAG_SYNC ev' u' dev' w'
       end) /\
    (err < 0 -> err ≠ - EAGAIN ->
       evdev_loop (S n) flags ev u dev w =
       Returns (u, dev')
               (World (ports w) (trace w ++ [NextEvent flags; LogError (- err)]))) /\
    (exists u' w' tr,
        evdev_cb (set_evdev_dev (Some dev) u) w = Returns u' w' /\
        event u' = event u /\
        trace w' = trace w ++ tr /\
        forall d, IoFree d ∉ tr) /\
    (let drained :=
       protocol_drain LIBEVDEV_READ_FLAG_NORMAL (pending dev)
                      (set_evdev_dev (Some dev) u, w) in
     evdev_cb (set_evdev_dev (Some dev) u) w =
     Returns (set_evdev_dev (Some (Libevdev (fd dev) (caps dev) drained.1.2))
                            drained.1.1)
             drained.2) /\
    (exists u' w' tr,
        evdev_cb (set_evdev_dev (Some dev) u) w = Returns u' w' /\
        trace w' = trace w ++ NextEvent LIBEVDEV_READ_FLAG_NORMAL :: tr /\
        ends_on_would_block_or_error (NextEvent LIBEVDEV_READ_FLAG_NORMAL :: tr)).
Proof.
  intros flags ev u dev w n err ev' dev' w1.
  pose proof (evdev_cb_iter_unfold flags ev u dev w) as Hiter.
  cbv zeta in Hiter. fold err ev' dev' w1 in Hiter.
  split; [|split; [|split; [|split; [|split]]]].
  - intros Herr. rewrite evdev_loop_S, Hiter, Herr, Z.eqb_refl.
    by destruct flags.
  - intros Herr. rewrite evdev_loop_S, Hiter, Herr.
    change (LIBEVDEV_READ_STATUS_SYNC =? - EAGAIN) with false.
    rewrite Z.eqb_refl. destruct flags; [|done].
    destruct (handle_event_quiet ev' u w1) as (u' & w' & Eh & _).
    exists u', w'. split; [exact Eh|].
    by erewrite bind_returns by exact Eh.
  - intros Hneg Hne. rewrite evdev_loop_S, Hiter.
    destruct (err =? - EAGAIN) eqn:E1; [apply Z.eqb_eq in E1; done|].
    destruct (err =? LIBEVDEV_READ_STATUS_SYNC) eqn:E2.
    { apply Z.eqb_eq in E2. unfold LIBEVDEV_READ_STATUS_SYNC in E2. lia. }
    destruct (err <? 0) eqn:E3; [done|]. apply Z.ltb_ge in E3. lia.
  - destruct (evdev_cb_returns (set_evdev_dev (Some dev) u) dev w eq_refl)
      as (u' & dev1 & w' & E & He & _ & _ & _ & tr & Htr & Hq).
    by exists u', w', tr.
  - apply evdev_cb_protocol.
  - destruct (protocol_drain_trace (pending dev) LIBEVDEV_READ_FLAG_NORMAL
                (set_evdev_dev (Some dev) u, w)) as (tr & Htr & Hend).
    eexists _, _, tr. split; [apply evdev_cb_protocol|]. by split.
Qed.

(** ** Recovery after dropped events *)

Lemma evaluations_app tr1 tr2 :
  evaluations (tr1 ++ tr2) = (evaluations tr1 + evaluations tr2)%nat.
Proof. unfold evaluations. by rewrite List.filter_app, length_app. Qed.

Lemma evaluations_notify_trace u reg : evaluations (notify_trace u reg) = 1%nat.
Proof.
  unfold notify_trace, port_calls.
  destruct (reg !! "output-wired_headphone"%string),
    (reg !! "output-wired_headset"%string),
    (reg !! "input-wired_headset"%string); reflexivity.
Qed.

Ltac drain_step :=
  rewrite evdev_loop_S, evdev_cb_iter_unfold;
  cbn [libevdev_next_event pending fd caps fst snd r_err r_ev];
  cbv [LIBEVDEV_READ_STATUS_SUCCESS LIBEVDEV_READ_STATUS_SYNC EAGAIN
       Z.eqb Z.ltb Z.compare Z.opp Pos.compare Pos.compare_cont Pos.eqb];
  cbv beta iota.

Ltac handle_step :=
  first
    [ erewrite (bind_returns (handle_event _ _))
        by (apply handle_event_switch; reflexivity)
    | erewrite (bind_returns (handle_event _ _))
        by (apply handle_event_report; reflexivity) ];
  unfold ret;
  cbv [ev_code SW_HEADPHONE_INSERT SW_MICROPHONE_INSERT SW_LINEOUT_INSERT
       Z.eqb Pos.eqb];
  cbv beta iota.

(** C5: draining a headphone insertion, a dropped-events notice and a
    snapshot (headphone 1, microphone 1) closed by the report marker leaves
    headphone_insert and microphone_insert true, whatever the state was
    before, and runs [notify_ports] once: after the read that delivers the
    marker, not after the reads that deliver the two snapshot events.  The
    same holds when the marker comes as a normal event after the
    snapshot. *)
Theorem resync_recovery_single_evaluation :
  forall (u : pa_droid_extevdev) (d : Z) (cs : gmap (Z * Z) Z) (w : world),
    let u1 := Monitor (Some (Libevdev d cs [])) (event u)
                      true true (sw_lineout_insert u) in
    let rn := NextEvent LIBEVDEV_READ_FLAG_NORMAL in
    let rs := NextEvent LIBEVDEV_READ_FLAG_SYNC in
    (exists w',
        evdev_cb (set_evdev_dev (Some (Libevdev d cs resync_script)) u) w
          = Returns u1 w' /\
        ports w' = notify_registry u1 (ports w) /\
        trace w' = trace w ++ [rn; rn; rs; rs; rs] ++
                              notify_trace u1 (ports w) ++ [rs; rn] /\
        evaluations (trace w') = (evaluations (trace w) + 1)%nat) /\
    (exists w',
        evdev_cb (set_evdev_dev (Some (Libevdev d cs resync_script_late_report)) u) w
          = Returns u1 w' /\
        ports w' = notify_registry u1 (ports w) /\
        trace w' = trace w ++ [rn; rn; rs; rs; rs; rn] ++
                              notify_trace u1 (ports w) ++ [rn] /\
        evaluations (trace w') = (evaluations (trace w) + 1)%nat) /\
    sw_headphone_insert u1 = true /\ sw_microphone_insert u1 = true /\
    has_headphone u1 = PA_AVAILABLE_NO /\ has_headset u1 = PA_AVAILABLE_YES.
Proof.
  intros u d cs w u1 rn rs.
  split; [|split; [|by destruct u as [? ? ? ? []]]].
  - eexists. split; [|split; [|split]].
    + unfold evdev_cb, resync_script.
      cbn [evdev_dev set_evdev_dev pending length Nat.add].
      erewrite bind_returns.
      2:{ drain_step. handle_step.
          drain_step.
          drain_step. handle_step.
          drain_step. handle_step.
          drain_step. handle_step.
          drain_step. drain_step. reflexivity. }
      reflexivity.
    + reflexivity.
    + cbn [trace ports]. rewrite <- !app_assoc. reflexivity.
    + cbn [trace ports]. rewrite !evaluations_app, evaluations_notify_trace.
      assert (Hz : forall f, evaluations [NextEvent f] = 0%nat) by done.
      rewrite !Hz. lia.
  - eexists. split; [|split; [|split]].
    + unfold evdev_cb, resync_script_late_report.
      cbn [evdev_dev set_evdev_dev pending length Nat.add].
      erewrite bind_returns.
      2:{ drain_step. handle_step.
          drain_step.
          drain_step. handle_step.
          drain_step. handle_step.
          drain_step.
          drain_step. handle_step.
          drain_step. reflexivity. }
      reflexivity.
    + reflexivity.
    + cbn [trace ports]. rewrite <- !app_assoc. reflexivity.
    + cbn [trace ports]. rewrite !evaluations_app, evaluations_notify_trace.
      assert (Hz : forall f, evaluations [NextEvent f] = 0%nat) by done.
      rewrite !Hz. lia.
Qed.

(** ** Device selection *)

Lemma probe_candidates_run l :
  forall w,
    probe_candidates l w =
    Returns (device_of <$> List.find qualifies l)
            (World (ports w) (trace w ++ probe_trace l)).
Proof.
  induction l as [| c rest IH]; intros w.
  - simpl. unfold ret. by rewrite app_nil_r; destruct w.
  - cbn [probe_candidates List.find probe_trace].
    fold (node_path c).
    do 2 erewrite bind_returns by reflexivity.
    unfold qualifies, reject_trace, accept_trace.
    rewrite (Z.leb_antisym (open_ret c) 0), (Z.leb_antisym (new_from_fd_ret c) 0).
    destruct (open_ret c <? 0) eqn:E1; cbn [negb andb].
    { erewrite bind_returns by reflexivity. rewrite IH.
      cbn [ports trace]. by rewrite <- !app_assoc. }
    erewrite bind_returns by reflexivity.
    destruct (new_from_fd_ret c <? 0) eqn:E2; cbn [negb andb].
    { do 2 erewrite bind_returns by reflexivity. rewrite IH.
      cbn [ports trace]. by rewrite <- !app_assoc. }
    unfold libevdev_has_event_code; cbn [caps].
    destruct (bool_decide (is_Some (node_caps c !! (EV_SW, SW_HEADPHONE_INSERT)))).
    + unfold ret. cbn [ports trace fmap option_fmap option_map].
      by rewrite <- !app_assoc.
    + do 2 erewrite bind_returns by reflexivity. rewrite IH.
      cbn [ports trace]. by rewrite <- !app_assoc.
Qed.

Lemma find_switch_evdev_run entries w :
  find_switch_evdev (Some entries) w =
  Returns (device_of <$> List.find qualifies (candidates entries))
          (World (ports w)
                 (trace w ++ [Scandir] ++ probe_trace (candidates entries)
                          ++ [FreeNamelist])).
Proof.
  unfold find_switch_evdev, scandir. fold (candidates entries).
  erewrite bind_returns.
  2:{ erewrite bind_returns by reflexivity. reflexivity. }
  cbn [fst snd default]. rewrite Nat2Z.id, firstn_all.
  erewrite bind_returns by apply probe_candidates_run.
  erewrite bind_returns by reflexivity.
  unfold ret. cbn [ports trace]. by rewrite <- !app_assoc.
Qed.

Lemma find_switch_evdev_unreadable w :
  find_switch_evdev None w = Undefined (World (ports w) (trace w ++ [Scandir])).
Proof.
  unfold find_switch_evdev, scandir.
  erewrite bind_returns.
  2:{ erewrite bind_returns by reflexivity. reflexivity. }
  cbn [fst snd default]. change (Z.to_nat (-1)) with 0%nat. cbn [take].
  erewrite bind_returns by reflexivity.
  reflexivity.
Qed.

(** The chosen candidate is the first qualifying one: all before it were
    probed and passed over, none after it was opened. *)
Lemma probe_first_match l c :
  List.find qualifies l = Some c ->
  exists before after,
    l = before ++ c :: after /\
    Forall (fun c' => qualifies c' = false) before /\
    qualifies c = true /\
    probe_trace l = concat (map reject_trace before) ++ accept_trace c.
Proof.
  induction l as [| c0 rest IH]; [done|].
  cbn [List.find probe_trace]. destruct (qualifies c0) eqn:Eq.
  - intros [= ->]. exists [], rest. by repeat split.
  - intros Hf. destruct (IH Hf) as (before & after & -> & Hall & Hq & Htr).
    exists (c0 :: before), after. split; [done|]. split; [by constructor|].
    split; [done|]. cbn [map concat]. by rewrite Htr, app_assoc.
Qed.

Lemma probe_no_match l :
  List.find qualifies l = None ->
  Forall (fun c' => qualifies c' = false) l /\
  probe_trace l = concat (map reject_trace l).
Proof.
  induction l as [| c0 rest IH]; [done|].
  cbn [List.find probe_trace]. destruct (qualifies c0) eqn:Eq; [done|].
  intros Hf. destruct (IH Hf) as [Hall Htr].
  split; [by constructor|]. cbn [map concat]. by rewrite Htr.
Qed.

(** ** Initial synchronisation *)

Lemma INIT_SW_run dev code sw_var value u w :
  INIT_SW dev code sw_var value u w =
  Returns (match cached dev code with Some v => v | None => value end,
           sw_var (present (cached dev code)) u)
          (World (ports w) (trace w ++ [FetchEventValue code])).
Proof.
  unfold INIT_SW, libevdev_fetch_event_value, cached, present.
  erewrite bind_returns by reflexivity.
  destruct (caps dev !! (EV_SW, code)); reflexivity.
Qed.

Lemma read_initial_switch_values_run u dev w :
  evdev_dev u = Some dev ->
  let u' := Monitor (Some dev) (event u)
                    (present (cached dev SW_HEADPHONE_INSERT))
                    (present (cached dev SW_MICROPHONE_INSERT))
                    (present (cached dev SW_LINEOUT_INSERT)) in
  read_initial_switch_values u w =
  Returns u' (World (notify_registry u' (ports w))
                    (trace w ++ initial_fetches ++ notify_trace u' (ports w))).
Proof.
  intros Hdev u'. unfold read_initial_switch_values. rewrite Hdev.
  do 3 erewrite bind_returns by apply INIT_SW_run.
  cbn [fst snd].
  erewrite bind_returns by apply notify_ports_run.
  unfold ret. cbn [ports trace].
  unfold set_sw_lineout_insert, set_sw_microphone_insert, set_sw_headphone_insert.
  cbn [evdev_dev event sw_headphone_insert sw_microphone_insert sw_lineout_insert].
  rewrite Hdev. fold u'. unfold initial_fetches. by rewrite <- !app_assoc.
Qed.

(** ** Creation and destruction *)

Lemma pa_droid_extevdev_free_run u w :
  pa_droid_extevdev_free u w =
  Returns tt (World (ports w) (trace w ++ free_trace u)).
Proof.
  unfold pa_droid_extevdev_free, free_trace, libevdev_get_fd.
  destruct (event u), (evdev_dev u); unfold bind, emit, ret; cbn [ports trace];
    by rewrite <- ?app_assoc.
Qed.

Lemma pa_droid_extevdev_new_selected entries c w :
  List.find qualifies (candidates entries) = Some c ->
  pa_droid_extevdev_new (Some entries) w =
  Returns (Some (monitor_of c))
          (World (notify_registry (monitor_of c) (ports w))
                 (trace w ++ [Scandir] ++ probe_trace (candidates entries)
                          ++ [FreeNamelist] ++ activation_trace c (ports w))).
Proof.
  intros Hfind. unfold pa_droid_extevdev_new.
  erewrite bind_returns by apply find_switch_evdev_run.
  rewrite Hfind. cbn [fmap option_fmap option_map set_evdev_dev evdev_dev pa_xnew0].
  erewrite bind_returns by reflexivity.
  erewrite bind_returns by (by apply read_initial_switch_values_run).
  unfold ret, activation_trace, monitor_of, libevdev_get_fd, set_event.
  cbn [ports trace fd event evdev_dev device_of].
  by rewrite <- !app_assoc.
Qed.

Lemma pa_droid_extevdev_new_none_selected entries w :
  List.find qualifies (candidates entries) = None ->
  pa_droid_extevdev_new (Some entries) w =
  Returns None
          (World (ports w)
                 (trace w ++ [Scandir] ++ probe_trace (candidates entries)
                          ++ [FreeNamelist] ++ [Xfree])).
Proof.
  intros Hfind. unfold pa_droid_extevdev_new.
  erewrite bind_returns by apply find_switch_evdev_run.
  rewrite Hfind. cbn [fmap option_fmap option_map set_evdev_dev evdev_dev pa_xnew0].
  erewrite bind_returns by apply pa_droid_extevdev_free_run.
  unfold ret, free_trace. cbn [ports trace event evdev_dev].
  by rewrite <- !app_assoc.
Qed.

Lemma pa_droid_extevdev_new_unreadable w :
  pa_droid_extevdev_new None w = Undefined (World (ports w) (trace w ++ [Scandir])).
Proof.
  unfold pa_droid_extevdev_new, bind. by rewrite find_switch_evdev_unreadable.
Qed.

(** For a directory that can be read, the selector returns the first
    candidate, in the order [scandir] lists them, that opens, yields a
    decoding context and reports the headphone switch; it probes exactly
    the candidates before that one and passes each of them over; it returns
    no handle when none qualifies. *)
Theorem find_switch_evdev_first_match :
  forall (entries : list input_node) (w : world),
    exists w',
      find_switch_evdev (Some entries) w =
        Returns (device_of <$> List.find qualifies (candidates entries)) w' /\
      ports w' = ports w /\
      match List.find qualifies (candidates entries) with
      | Some c =>
          exists before after,
            candidates entries = before ++ c :: after /\
            Forall (fun c' => qualifies c' = false) before /\
            qualifies c = true /\
            trace w' = trace w ++ [Scandir] ++ concat (map reject_trace before)
                               ++ accept_trace c ++ [FreeNamelist]
      | None =>
          Forall (fun c' => qualifies c' = false) (candidates entries) /\
          trace w' = trace w ++ [Scandir]
                             ++ concat (map reject_trace (candidates entries))
                             ++ [FreeNamelist]
      end.
Proof.
  intros entries w. eexists. split; [apply find_switch_evdev_run|].
  split; [done|]. cbn [trace].
  destruct (List.find qualifies (candidates entries)) as [c |] eqn:Hfind.
  - destruct (probe_first_match _ _ Hfind) as (before & after & E & Hall & Hq & Htr).
    exists before, after. do 3 (split; [done|]).
    by rewrite Htr, <- !app_assoc.
  - destruct (probe_no_match _ Hfind) as [Hall Htr].
    split; [done|]. by rewrite Htr.
Qed.

(** What passing a candidate over costs: nothing to close when [open]
    failed; the descriptor closed when no decoding context could be
    built; the context released and then the descriptor closed when the
    device lacks the headphone switch. *)
Lemma reject_trace_cases c :
  qualifies c = false ->
  (open_ret c < 0 /\
   reject_trace c =
     [LogDebug (node_path c); Open (node_path c);
      LogWarn (node_path c) (open_errno c)]) \/
  (0 <= open_ret c /\ new_from_fd_ret c < 0 /\
   reject_trace c =
     [LogDebug (node_path c); Open (node_path c);
      LibevdevNewFromFd (open_ret c);
      LogWarn (node_path c) (- new_from_fd_ret c); Close (open_ret c)]) \/
  (0 <= open_ret c /\ 0 <= new_from_fd_ret c /\
   libevdev_has_event_code (device_of c) EV_SW SW_HEADPHONE_INSERT = false /\
   reject_trace c =
     [LogDebug (node_path c); Open (node_path c);
      LibevdevNewFromFd (open_ret c);
      LibevdevFree (open_ret c); Close (open_ret c)]).
Proof.
  unfold qualifies, reject_trace, libevdev_has_event_code. cbn [device_of caps].
  intros Hq.
  destruct (open_ret c <? 0) eqn:E1.
  { left. apply Z.ltb_lt in E1. done. }
  apply Z.ltb_ge in E1. right.
  destruct (new_from_fd_ret c <? 0) eqn:E2.
  { left. apply Z.ltb_lt in E2. done. }
  apply Z.ltb_ge in E2. right.
  apply Z.leb_le in E1 as E1', E2 as E2'. rewrite E1', E2' in Hq.
  done.
Qed.

(** C6, where the code departs from it: when [/dev/input] cannot be
    enumerated, [scandir] returns -1 without assigning [namelist], both
    loops are skipped, and the unconditional [free(namelist)] is applied to
    a pointer that was never set.  The selector does not return "no
    handle" there, it has no defined result, and neither has the creation
    that called it. *)
Theorem find_switch_evdev_unreadable_directory :
  forall (w : world),
    find_switch_evdev None w = Undefined (World (ports w) (trace w ++ [Scandir])) /\
    (forall w', find_switch_evdev None w ≠ Returns None w') /\
    pa_droid_extevdev_new None w = Undefined (World (ports w) (trace w ++ [Scandir])).
Proof.
  intros w. split; [apply find_switch_evdev_unreadable|].
  split; [|apply pa_droid_extevdev_new_unreadable].
  intros w'. by rewrite find_switch_evdev_unreadable.
Qed.

(** ** A directory and a card to run the code on *)

Lemma example_dir_selects_jack :
  List.find qualifies (candidates example_dir) = Some example_jack.
Proof. vm_compute. reflexivity. Qed.

(** ** Teardown *)

(** C9: destruction looks at each owned field before releasing it.  The
    registration is dropped exactly when there is one; the decoding
    context is released and its descriptor closed exactly when there is a
    context.  With both, the calls are: unregister, release the context,
    close the descriptor.  A creation that fails at selection destroys a
    monitor that has neither, so beyond the selector's own calls it only
    frees the structure. *)
Theorem pa_droid_extevdev_free_partial :
  forall (u : pa_droid_extevdev) (w : world),
    (exists tr,
        pa_droid_extevdev_free u w = Returns tt (World (ports w) (trace w ++ tr)) /\
        ((exists e, IoFree e ∈ tr) <-> is_Some (event u)) /\
        ((exists d, LibevdevFree d ∈ tr) <-> is_Some (evdev_dev u)) /\
        ((exists d, Close d ∈ tr) <-> is_Some (evdev_dev u)) /\
        (forall e dev, event u = Some e -> evdev_dev u = Some dev ->
           tr = [IoFree e; LibevdevFree (fd dev); Close (fd dev); Xfree]) /\
        (forall dev, event u = None -> evdev_dev u = Some dev ->
           tr = [LibevdevFree (fd dev); Close (fd dev); Xfree]) /\
        (event u = None -> evdev_dev u = None -> tr = [Xfree])) /\
    (forall entries,
        List.find qualifies (candidates entries) = None ->
        exists w1,
          find_switch_evdev (Some entries) w = Returns None w1 /\
          pa_droid_extevdev_new (Some entries) w =
            Returns None (World (ports w1) (trace w1 ++ [Xfree]))).
Proof.
  intros u w. split.
  - exists (free_trace u). split; [apply pa_droid_extevdev_free_run|].
    unfold free_trace.
    destruct (event u) as [e |], (evdev_dev u) as [dev |]; cbn [app];
      repeat split;
      try (intros [x Hx]; repeat (apply elem_of_cons in Hx as [Hx | Hx];
             [discriminate|]); by inversion Hx);
      try (by intros [? [=]]);
      try (intros; simplify_eq; done);
      intros _; eexists;
      repeat first [apply list_elem_of_here | apply list_elem_of_further].
  - intros entries Hfind. eexists. split.
    + rewrite find_switch_evdev_run, Hfind. reflexivity.
    + rewrite (pa_droid_extevdev_new_none_selected _ _ Hfind).
      cbn [ports trace]. by rewrite <- !app_assoc.
Qed.

(** ** Order of registration and initial read *)

Lemma all_before_split P Q pre x post :
  Forall (fun a => P a = false /\ Q a = false) pre ->
  Q x = false ->
  Forall (fun a => P a = false) post ->
  all_before P Q (pre ++ x :: post).
Proof.
  intros Hpre Hx Hpost i j a b Hi Hj Pa Qb.
  assert (Hi' : (i <= length pre)%nat).
  { destruct (decide (i <= length pre)%nat) as [| Hgt]; [done|]. exfalso.
    rewrite lookup_app_r in Hi by lia.
    destruct (i - length pre)%nat as [| k] eqn:Ek; [lia|].
    cbn in Hi. apply list_elem_of_lookup_2 in Hi.
    rewrite Forall_forall in Hpost. specialize (Hpost _ Hi). congruence. }
  assert (Hj' : (length pre < j)%nat).
  { destruct (decide (length pre < j)%nat) as [| Hle]; [done|]. exfalso.
    destruct (decide (j = length pre)) as [-> | Hne].
    - rewrite lookup_app_r, Nat.sub_diag in Hj by lia. cbn in Hj. congruence.
    - rewrite lookup_app_l in Hj by lia. apply list_elem_of_lookup_2 in Hj.
      rewrite Forall_forall in Hpre. destruct (Hpre _ Hj). congruence. }
  lia.
Qed.

Lemma probe_trace_selector_calls l : Forall selector_call (probe_trace l).
Proof.
  induction l as [| c rest IH]; [constructor|].
  cbn [probe_trace]. destruct (qualifies c).
  - unfold accept_trace. repeat constructor.
  - apply Forall_app. split; [|done]. unfold reject_trace.
    destruct (open_ret c <? 0), (new_from_fd_ret c <? 0); repeat constructor.
Qed.

Lemma notify_trace_port_calls u reg :
  Forall (fun a => is_registration a = false /\ is_initial_read a = false /\
                   is_next_event a = false)
         (notify_trace u reg).
Proof.
  unfold notify_trace, port_calls.
  destruct (reg !! "output-wired_headphone"%string),
    (reg !! "output-wired_headset"%string),
    (reg !! "input-wired_headset"%string); repeat constructor.
Qed.

(** C4, as the code has it: a successful creation registers the readiness
    callback first and reads the three initial switch values after that;
    no initial read comes before the registration.  Both happen inside
    the creation call, which registers once, reads each of the three
    values once, and never reads an event. *)
Theorem registration_precedes_initial_read :
  forall (entries : list input_node) (c : input_node) (w : world),
    List.find qualifies (candidates entries) = Some c ->
    exists u w' tr,
      pa_droid_extevdev_new (Some entries) w = Returns (Some u) w' /\
      event u = Some (open_ret c) /\
      trace w' = trace w ++ tr /\
      all_before is_registration is_initial_read tr /\
      List.filter is_registration tr = [IoNew (open_ret c)] /\
      List.filter is_initial_read tr = initial_fetches /\
      List.filter is_next_event tr = [].
Proof.
  intros entries c w Hfind.
  eexists _, _, _. split; [by apply pa_droid_extevdev_new_selected|].
  split; [reflexivity|]. cbn [trace]. split; [reflexivity|].
  pose proof (probe_trace_selector_calls (candidates entries)) as Hprobe.
  pose proof (notify_trace_port_calls (monitor_of c) (ports w)) as Hnote.
  set (pt := probe_trace (candidates entries)) in *.
  set (nt := notify_trace (monitor_of c) (ports w)) in *.
  assert (Hf : forall (P : action -> bool) l,
             Forall (fun a => P a = false) l -> List.filter P l = []).
  { intros P l Hl. induction Hl as [| a l Ha _ IH]; [done|].
    cbn [List.filter]. by rewrite Ha. }
  unfold activation_trace. fold nt.
  split; [|split; [|split]].
  - replace ([Scandir] ++ pt ++ [FreeNamelist] ++ IoNew (open_ret c) :: initial_fetches ++ nt)
      with (([Scandir] ++ pt ++ [FreeNamelist]) ++ IoNew (open_ret c) :: initial_fetches ++ nt)
      by (by rewrite <- !app_assoc).
    apply all_before_split; [|done|].
    + repeat (apply Forall_app; split); try (by repeat constructor).
      eapply Forall_impl; [exact Hprobe|]. by intros a (? & ? & ?).
    + apply Forall_app. split; [by repeat constructor|].
      eapply Forall_impl; [exact Hnote|]. by intros a (? & ? & ?).
  - rewrite !List.filter_app. cbn [List.filter is_registration].
    rewrite !List.filter_app.
    rewrite (Hf _ pt), (Hf _ nt); [done| |].
    + eapply Forall_impl; [exact Hnote|]. by intros a (? & ? & ?).
    + eapply Forall_impl; [exact Hprobe|]. by intros a (? & ? & ?).
  - rewrite !List.filter_app. cbn [List.filter is_initial_read].
    rewrite !List.filter_app.
    rewrite (Hf _ pt), (Hf _ nt); [done| |].
    + eapply Forall_impl; [exact Hnote|]. by intros a (? & ? & ?).
    + eapply Forall_impl; [exact Hprobe|]. by intros a (? & ? & ?).
  - rewrite !List.filter_app. cbn [List.filter is_next_event].
    rewrite !List.filter_app.
    rewrite (Hf _ pt), (Hf _ nt); [done| |].
    + eapply Forall_impl; [exact Hnote|]. by intros a (? & ? & ?).
    + eapply Forall_impl; [exact Hprobe|]. by intros a (? & ? & ?).
Qed.

Lemma registration_precedes_initial_read_witness :
  List.find qualifies (candidates example_dir) = Some example_jack /\
  exists u w' tr,
    pa_droid_extevdev_new (Some example_dir) example_world = Returns (Some u) w' /\
    event u = Some (open_ret example_jack) /\
    trace w' = trace example_world ++ tr /\
    all_before is_registration is_initial_read tr /\
    List.filter is_registration tr = [IoNew (open_ret example_jack)] /\
    List.filter is_initial_read tr = initial_fetches /\
    List.filter is_next_event tr = [].
Proof.
  split; [vm_compute; reflexivity|].
  apply (registration_precedes_initial_read example_dir example_jack example_world).
  vm_compute; reflexivity.
Defined.

(** C4 as stated fails: on the example directory the creation registers
    the callback (call 18 of the trace) before it fetches the first
    initial value (call 19), so not every initial read comes before the
    registration. *)
Lemma initial_read_before_registration_counterexample :
  exists u w',
    pa_droid_extevdev_new (Some example_dir) example_world = Returns (Some u) w' /\
    trace w' !! 18%nat = Some (IoNew 7) /\
    trace w' !! 19%nat = Some (FetchEventValue SW_HEADPHONE_INSERT) /\
    ~ all_before is_initial_read is_registration (trace w').
Proof.
  eexists _, _. split; [vm_compute; reflexivity|].
  split; [reflexivity|]. split; [reflexivity|].
  intros H.
  specialize (H 19%nat 18%nat (FetchEventValue SW_HEADPHONE_INSERT) (IoNew 7)
                eq_refl eq_refl eq_refl eq_refl).
  lia.
Qed.

(** ** Initial evaluation *)

Lemma probe_trace_not_notified l :
  Forall (fun a => is_notified a = false) (probe_trace l).
Proof.
  induction l as [| c rest IH]; [constructor|].
  cbn [probe_trace]. destruct (qualifies c).
  - unfold accept_trace. repeat constructor.
  - apply Forall_app. split; [|done]. unfold reject_trace.
    destruct (open_ret c <? 0), (new_from_fd_ret c <? 0); repeat constructor.
Qed.

Lemma filter_none (P : action -> bool) l :
  Forall (fun a => P a = false) l -> List.filter P l = [].
Proof.
  intros Hl. induction Hl as [| a l Ha _ IH]; [done|].
  cbn [List.filter]. by rewrite Ha.
Qed.

Lemma filter_notified_notify_trace u reg :
  List.filter is_notified (notify_trace u reg) =
  [Notified (has_headphone u) (has_headset u)].
Proof.
  unfold notify_trace, port_calls.
  destruct (reg !! "output-wired_headphone"%string),
    (reg !! "output-wired_headset"%string),
    (reg !! "input-wired_headset"%string); reflexivity.
Qed.

(** A successful creation runs [notify_ports] once and reads no event. *)
Lemma creation_trace_filters entries c w :
  let tr := [Scandir] ++ probe_trace (candidates entries) ++ [FreeNamelist]
              ++ activation_trace c (ports w) in
  List.filter is_notified tr =
    [Notified (has_headphone (monitor_of c)) (has_headset (monitor_of c))] /\
  List.filter is_next_event tr = [].
Proof.
  intros tr. subst tr. unfold activation_trace.
  pose proof (probe_trace_selector_calls (candidates entries)) as Hprobe.
  pose proof (probe_trace_not_notified (candidates entries)) as Hprobe'.
  pose proof (notify_trace_port_calls (monitor_of c) (ports w)) as Hnote.
  split.
  - rewrite !List.filter_app. cbn [List.filter is_notified].
    rewrite !List.filter_app, filter_notified_notify_trace.
    by rewrite (filter_none _ _ Hprobe').
  - rewrite !List.filter_app. cbn [List.filter is_next_event].
    rewrite !List.filter_app.
    rewrite (filter_none is_next_event (probe_trace _)),
      (filter_none is_next_event (notify_trace _ _)); [done| |].
    + eapply Forall_impl; [exact Hnote|]. by intros a (? & ? & ?).
    + eapply Forall_impl; [exact Hprobe|]. by intros a (? & ? & ?).
Qed.

(** C7, as the code has it: the initial read sets each boolean to
    "supported and cached value not zero", so an unsupported code gives
    false; it then runs [notify_ports] once, and a creation makes that one
    run and no other, without reading an event.  For a device whose cached
    microphone value is 1 while headphone and line-out are 0 or
    unsupported, that run decides headphone unavailable and headset
    unavailable: a microphone alone makes nothing available. *)
Theorem initial_sync_single_evaluation :
  forall (u : pa_droid_extevdev) (dev : libevdev) (w : world)
         (entries : list input_node) (c : input_node),
    evdev_dev u = Some dev ->
    List.find qualifies (candidates entries) = Some c ->
    (present None = false /\ forall v, present (Some v) = negb (v =? 0)) /\
    (exists u' w',
        read_initial_switch_values u w = Returns u' w' /\
        sw_headphone_insert u' = present (cached dev SW_HEADPHONE_INSERT) /\
        sw_microphone_insert u' = present (cached dev SW_MICROPHONE_INSERT) /\
        sw_lineout_insert u' = present (cached dev SW_LINEOUT_INSERT) /\
        evdev_dev u' = evdev_dev u /\ event u' = event u /\
        trace w' = trace w ++ initial_fetches ++ notify_trace u' (ports w) /\
        evaluations (trace w') = (evaluations (trace w) + 1)%nat /\
        (cached dev SW_MICROPHONE_INSERT = Some 1 ->
         cached dev SW_HEADPHONE_INSERT = None \/
           cached dev SW_HEADPHONE_INSERT = Some 0 ->
         cached dev SW_LINEOUT_INSERT = None \/
           cached dev SW_LINEOUT_INSERT = Some 0 ->
         has_headphone u' = PA_AVAILABLE_NO /\ has_headset u' = PA_AVAILABLE_NO)) /\
    (exists m w' tr,
        pa_droid_extevdev_new (Some entries) w = Returns (Some m) w' /\
        trace w' = trace w ++ tr /\
        List.filter is_notified tr = [Notified (has_headphone m) (has_headset m)] /\
        List.filter is_next_event tr = [] /\
        (cached (device_of c) SW_MICROPHONE_INSERT = Some 1 ->
         cached (device_of c) SW_HEADPHONE_INSERT = Some 0 ->
         cached (device_of c) SW_LINEOUT_INSERT = None \/
           cached (device_of c) SW_LINEOUT_INSERT = Some 0 ->
         has_headphone m = PA_AVAILABLE_NO /\ has_headset m = PA_AVAILABLE_NO)).
Proof.
  intros u dev w entries c Hdev Hfind.
  assert (Hmic : forall hp mic lo d e,
             mic = Some 1 -> hp = None \/ hp = Some 0 -> lo = None \/ lo = Some 0 ->
             has_headphone (Monitor d e (present hp) (present mic) (present lo))
               = PA_AVAILABLE_NO /\
             has_headset (Monitor d e (present hp) (present mic) (present lo))
               = PA_AVAILABLE_NO).
  { intros hp mic lo d e -> [-> | ->] [-> | ->]; done. }
  split; [done|]. split.
  - eexists _, _. split; [by apply read_initial_switch_values_run|].
    cbn [sw_headphone_insert sw_microphone_insert sw_lineout_insert
         evdev_dev event trace ports].
    do 3 (split; [reflexivity|]). do 2 (split; [done|]). split; [reflexivity|].
    split.
    + rewrite !evaluations_app, evaluations_notify_trace.
      change (evaluations initial_fetches) with 0%nat. lia.
    + apply Hmic.
  - destruct (creation_trace_filters entries c w) as (Hn & He).
    eexists _, _, _. split; [by apply pa_droid_extevdev_new_selected|].
    cbn [trace]. split; [reflexivity|]. split; [exact Hn|]. split; [exact He|].
    intros H1 H2 H3. apply Hmic; auto.
Qed.

Lemma initial_sync_single_evaluation_witness :
  evdev_dev (monitor_of example_jack) = Some (device_of example_jack) /\
  List.find qualifies (candidates example_dir) = Some example_jack /\
  exists m w' tr,
    pa_droid_extevdev_new (Some example_dir) example_world = Returns (Some m) w' /\
    trace w' = trace example_world ++ tr /\
    List.filter is_notified tr = [Notified (has_headphone m) (has_headset m)] /\
    List.filter is_next_event tr = [] /\
    (cached (device_of example_jack) SW_MICROPHONE_INSERT = Some 1 ->
     cached (device_of example_jack) SW_HEADPHONE_INSERT = Some 0 ->
     cached (device_of example_jack) SW_LINEOUT_INSERT = None \/
       cached (device_of example_jack) SW_LINEOUT_INSERT = Some 0 ->
     has_headphone m = PA_AVAILABLE_NO /\ has_headset m = PA_AVAILABLE_NO).
Proof.
  split; [reflexivity|]. split; [vm_compute; reflexivity|].
  apply (initial_sync_single_evaluation
           (monitor_of example_jack) (device_of example_jack)
           example_world example_dir example_jack).
  - reflexivity.
  - vm_compute; reflexivity.
Defined.

(** C7 as stated fails: the example jack has cached microphone value 1,
    cached headphone value 0 and no line-out switch; its creation makes one
    evaluation, and that evaluation decides headset unavailable, which is
    also what the headset ports of the card are set to. *)
Lemma initial_sync_headset_available_counterexample :
  cached (device_of example_jack) SW_MICROPHONE_INSERT = Some 1 /\
  cached (device_of example_jack) SW_HEADPHONE_INSERT = Some 0 /\
  cached (device_of example_jack) SW_LINEOUT_INSERT = None /\
  exists u w',
    pa_droid_extevdev_new (Some example_dir) example_world = Returns (Some u) w' /\
    List.filter is_notified (trace w') = [Notified PA_AVAILABLE_NO PA_AVAILABLE_NO] /\
    has_headset u ≠ PA_AVAILABLE_YES /\
    ports w' !! "output-wired_headset"%string = Some PA_AVAILABLE_NO /\
    ports w' !! "input-wired_headset"%string = Some PA_AVAILABLE_NO.
Proof.
  do 3 (split; [vm_compute; reflexivity|]).
  eexists _, _. split; [vm_compute; reflexivity|].
  split; [reflexivity|]. split; [by vm_compute|].
  split; vm_compute; reflexivity.
Qed.

(** ** The code on concrete input *)

(** A device that has gone away: the read fails with [-ENODEV], the error
    is logged, the drain ends, and the registration stays. *)
Example hard_error_keeps_registration :
  evdev_cb (Monitor (Some (Libevdev 7 ∅ [Reply (- ENODEV) ev_uninit]))
                    (Some 7) true false false)
           example_world =
  Returns (Monitor (Some (Libevdev 7 ∅ [])) (Some 7) true false false)
          (World example_card
                 [NextEvent LIBEVDEV_READ_FLAG_NORMAL; LogError ENODEV]).
Proof. vm_compute. reflexivity. Qed.

(** Unplugging a headset one switch at a time: each report marker gives
    one evaluation of the state reached so far. *)
Example unplug_headset :
  exists u' w',
    evdev_cb (Monitor (Some (Libevdev 7 ∅
                [Reply 0 (InputEvent EV_SW SW_MICROPHONE_INSERT 0);
                 Reply 0 (InputEvent EV_SYN SYN_REPORT 0);
                 Reply 0 (InputEvent EV_SW SW_HEADPHONE_INSERT 0);
                 Reply 0 (InputEvent EV_SW SW_LID 1);
                 Reply 0 (InputEvent EV_SYN SYN_REPORT 0)]))
                (Some 7) true true false)
             example_world = Returns u' w' /\
    (sw_headphone_insert u', sw_microphone_insert u', sw_lineout_insert u')
      = (false, false, false) /\
    List.filter is_notified (trace w') =
      [Notified PA_AVAILABLE_YES PA_AVAILABLE_NO;
       Notified PA_AVAILABLE_NO PA_AVAILABLE_NO] /\
    ports w' !! "output-wired_headphone"%string = Some PA_AVAILABLE_NO /\
    ports w' !! "output-speaker"%string = Some PA_AVAILABLE_UNKNOWN.
Proof.
  eexists _, _. split; [vm_compute; reflexivity|].
  repeat split; vm_compute; reflexivity.
Qed.

(** The selector on the example directory: three candidates passed over,
    the jack chosen, "event10" never opened, descriptor 7 left open. *)
Example selector_on_example_dir :
  find_switch_evdev (Some example_dir) example_world =
  Returns (Some (device_of example_jack))
    (World example_card
       [Scandir;
        LogDebug "/dev/input/event0"; Open "/dev/input/event0";
        LogWarn "/dev/input/event0" EACCES;
        LogDebug "/dev/input/event1"; Open "/dev/input/event1";
        LibevdevNewFromFd 5; LogWarn "/dev/input/event1" ENODEV; Close 5;
        LogDebug "/dev/input/event2"; Open "/dev/input/event2";
        LibevdevNewFromFd 6; LibevdevFree 6; Close 6;
        LogDebug "/dev/input/event3"; Open "/dev/input/event3";
        LibevdevNewFromFd 7;
        FreeNamelist]).
Proof. vm_compute. reflexivity. Qed.

(** A phone without a jack: creation fails, and apart from the selector's
    own calls only the structure is freed. *)
Example creation_without_jack :
  pa_droid_extevdev_new
    (Some [InputNode "event0" (-1) EACCES 0 ∅ [];
           InputNode "event2" 6 0 0 {[ (EV_KEY, 116) := 0 ]} []])
    example_world =
  Returns None
    (World example_card
       [Scandir;
        LogDebug "/dev/input/event0"; Open "/dev/input/event0";
        LogWarn "/dev/input/event0" EACCES;
        LogDebug "/dev/input/event2"; Open "/dev/input/event2";
        LibevdevNewFromFd 6; LibevdevFree 6; Close 6;
        FreeNamelist;
        Xfree]).
Proof. vm_compute. reflexivity. Qed.

(** Destroying the monitor created on the example directory. *)
Example destroy_example_monitor :
  pa_droid_extevdev_free (monitor_of example_jack) example_world =
  Returns tt (World example_card [IoFree 7; LibevdevFree 7; Close 7; Xfree]).
Proof. vm_compute. reflexivity. Qed.

(** * Further properties *)

(** ** Notifications compose *)

Lemma is_Some_lookup_notify_registry u reg k :
  is_Some (notify_registry u reg !! k) <-> is_Some (reg !! k).
Proof.
  unfold notify_registry. rewrite !lookup_set_if_present.
  repeat case_decide; rewrite ?fmap_is_Some; done.
Qed.

Lemma dom_notify_registry u reg : dom (notify_registry u reg) = dom reg.
Proof.
  apply set_eq. intros k. rewrite !elem_of_dom.
  apply is_Some_lookup_notify_registry.
Qed.

Lemma notify_registry_absorb u1 u2 reg :
  notify_registry u2 (notify_registry u1 reg) = notify_registry u2 reg.
Proof.
  apply map_eq. intros k. unfold notify_registry.
  rewrite !lookup_set_if_present.
  repeat case_decide; try done; by destruct (reg !! k).
Qed.

Lemma port_calls_notify_registry name a u reg :
  port_calls name a (notify_registry u reg) = port_calls name a reg.
Proof.
  unfold port_calls.
  pose proof (is_Some_lookup_notify_registry u reg name) as H.
  destruct (notify_registry u reg !! name) as [x |] eqn:E1,
           (reg !! name) as [y |] eqn:E2; try done.
  - exfalso. destruct H as [H _]. destruct (H (mk_is_Some _ _ eq_refl)). done.
  - exfalso. destruct H as [_ H]. destruct (H (mk_is_Some _ _ eq_refl)). done.
Qed.

Lemma notify_trace_notify_registry u1 u2 reg :
  notify_trace u2 (notify_registry u1 reg) = notify_trace u2 reg.
Proof. unfold notify_trace. by rewrite !port_calls_notify_registry. Qed.

(** X1: a second notification with the switch state unchanged makes the
    same calls as the first, in the same order, and leaves the registry as
    the first left it. *)
Theorem notify_ports_idempotent :
  forall (u : pa_droid_extevdev) (w : world),
    exists w1 w2 calls,
      notify_ports u w = Returns tt w1 /\
      notify_ports u w1 = Returns tt w2 /\
      trace w1 = trace w ++ calls /\
      trace w2 = trace w1 ++ calls /\
      ports w2 = ports w1.
Proof.
  intros u w. eexists _, _, _.
  split; [apply notify_ports_run|]. split; [apply notify_ports_run|].
  cbn [ports trace]. split; [reflexivity|].
  split; [by rewrite notify_trace_notify_registry|].
  apply notify_registry_absorb.
Qed.

(** X2: of two notifications in a row the later one decides: the registry
    ends exactly as if only the second had run, whatever switch state the
    first was made with. *)
Theorem notify_ports_last_wins :
  forall (u1 u2 : pa_droid_extevdev) (w : world),
    exists w12 w2,
      (notify_ports u1 ;;; notify_ports u2) w = Returns tt w12 /\
      notify_ports u2 w = Returns tt w2 /\
      ports w12 = ports w2.
Proof.
  intros u1 u2 w. eexists _, _. split.
  - erewrite bind_returns by apply notify_ports_run. apply notify_ports_run.
  - split; [apply notify_ports_run|]. cbn [ports].
    apply notify_registry_absorb.
Qed.

Lemma writes_app tr1 tr2 : writes (tr1 ++ tr2) = writes tr1 ++ writes tr2.
Proof. unfold writes. apply omap_app. Qed.

Lemma writes_port_calls name a reg :
  writes (port_calls name a reg) =
  if bool_decide (is_Some (reg !! name)) then [(name, a)] else [].
Proof.
  unfold port_calls. destruct (reg !! name) eqn:E.
  - by rewrite bool_decide_eq_true_2.
  - rewrite bool_decide_eq_false_2; [done|]. by intros [? [=]].
Qed.

(** X3: a notification neither adds a port to the card nor removes one,
    and it writes only to ports the card has: of the three names, in the
    order headphone output, headset output, headset input, those that are
    present get one write each and the missing ones are skipped. *)
Theorem notify_ports_writes_present_ports :
  forall (u : pa_droid_extevdev) (w : world),
    exists w' calls,
      notify_ports u w = Returns tt w' /\
      trace w' = trace w ++ calls /\
      dom (ports w') = dom (ports w) /\
      writes calls =
        List.filter (fun p => bool_decide (is_Some (ports w !! p.1)))
          [ ("output-wired_headphone"%string, has_headphone u);
            ("output-wired_headset"%string, has_headset u);
            ("input-wired_headset"%string, has_headset u) ].
Proof.
  intros u w. eexists _, _. split; [apply notify_ports_run|].
  cbn [ports trace]. split; [reflexivity|].
  split; [apply dom_notify_registry|].
  unfold notify_trace.
  change (Notified ?a ?b :: ?l) with ([Notified a b] ++ l).
  rewrite !writes_app, !writes_port_calls. cbn [List.filter fst].
  by repeat case_bool_decide.
Qed.

(** ** The read loop on whole scripts *)

Lemma apply_switch_fields ev u :
  evdev_dev (apply_switch ev u) = evdev_dev u /\
  event (apply_switch ev u) = event u.
Proof. unfold apply_switch. repeat case_match; done. Qed.

(** A delivered answer: the event is handled and the mode stays. *)
Lemma evdev_loop_delivered_step n flags ev u d cs r q w :
  delivered flags (r_err r) ->
  evdev_loop (S n) flags ev u (Libevdev d cs (r :: q)) w =
  evdev_loop n flags (r_ev r) (after_event flags (u, w) (r_ev r)).1
             (Libevdev d cs q) (after_event flags (u, w) (r_ev r)).2.
Proof.
  intros Hdel. rewrite evdev_loop_S, evdev_cb_iter_unfold.
  unfold libevdev_next_event. cbn [pending fd caps fst snd].
  unfold after_event. cbn [fst snd].
  destruct Hdel as [-> | [-> ->]];
    cbv [LIBEVDEV_READ_STATUS_SUCCESS LIBEVDEV_READ_STATUS_SYNC EAGAIN
         Z.eqb Z.ltb Z.compare Z.opp Pos.eqb];
    cbv beta iota;
    by erewrite bind_returns by apply handle_event_pure.
Qed.

Lemma last_cons {A} (l : list A) :
  forall x d, List.last (x :: l) d = List.last l x.
Proof.
  induction l as [| y l IH]; intros x d; [done|].
  change (List.last (x :: y :: l) d) with (List.last (y :: l) d).
  by rewrite !IH.
Qed.

Lemma evdev_loop_delivered pre :
  forall n flags ev u d cs rest w,
    Forall (fun r => delivered flags (r_err r)) pre ->
    evdev_loop (length pre + n) flags ev u (Libevdev d cs (pre ++ rest)) w =
    evdev_loop n flags (List.last (map r_ev pre) ev)
               (after_events flags (map r_ev pre) (u, w)).1
               (Libevdev d cs rest)
               (after_events flags (map r_ev pre) (u, w)).2.
Proof.
  induction pre as [| r pre IH]; intros n flags ev u d cs rest w Hall.
  - reflexivity.
  - inversion Hall as [| ? ? Hr Hpre]; subst.
    cbn [length Nat.add app]. rewrite evdev_loop_delivered_step by done.
    rewrite IH by done. unfold after_events. cbn [map fold_left].
    destruct (after_event flags (u, w) (r_ev r)) as [u1 w1]. cbn [fst snd].
    cbn [fst snd]. by rewrite last_cons.
Qed.

(** How the loop ends on what follows the delivered answers. *)
Lemma evdev_loop_normal_empty n ev u d cs w :
  evdev_loop (S n) LIBEVDEV_READ_FLAG_NORMAL ev u (Libevdev d cs []) w =
  Returns (u, Libevdev d cs [])
          (World (ports w) (trace w ++ [NextEvent LIBEVDEV_READ_FLAG_NORMAL])).
Proof. by rewrite evdev_loop_S, evdev_cb_iter_unfold. Qed.

Lemma evdev_loop_sync_empty n ev u d cs w :
  evdev_loop (S (S n)) LIBEVDEV_READ_FLAG_SYNC ev u (Libevdev d cs []) w =
  Returns (u, Libevdev d cs [])
          (World (ports w)
                 (trace w ++ [NextEvent LIBEVDEV_READ_FLAG_SYNC;
                              NextEvent LIBEVDEV_READ_FLAG_NORMAL])).
Proof.
  rewrite evdev_loop_S, evdev_cb_iter_unfold.
  cbn [libevdev_next_event pending fst snd]. rewrite Z.eqb_refl.
  rewrite evdev_loop_normal_empty. cbn [ports trace].
  by rewrite <- app_assoc.
Qed.

Lemma evdev_loop_normal_failure n ev u d cs r q w :
  r_err r < 0 ->
  evdev_loop (S n) LIBEVDEV_READ_FLAG_NORMAL ev u (Libevdev d cs (r :: q)) w =
  Returns (u, Libevdev d cs q)
          (World (ports w)
                 (trace w ++ NextEvent LIBEVDEV_READ_FLAG_NORMAL ::
                    if r_err r =? - EAGAIN then [] else [LogError (- r_err r)])).
Proof.
  intros Hneg. rewrite evdev_loop_S, evdev_cb_iter_unfold.
  cbn [libevdev_next_event pending fd caps fst snd].
  destruct (r_err r =? - EAGAIN) eqn:E1; [done|].
  destruct (r_err r =? LIBEVDEV_READ_STATUS_SYNC) eqn:E2.
  { apply Z.eqb_eq in E2. unfold LIBEVDEV_READ_STATUS_SYNC in E2. lia. }
  apply Z.ltb_lt in Hneg. by rewrite Hneg.
Qed.

Lemma evdev_loop_normal_notice n ev u d cs r q w :
  r_err r = LIBEVDEV_READ_STATUS_SYNC ->
  evdev_loop (S n) LIBEVDEV_READ_FLAG_NORMAL ev u (Libevdev d cs (r :: q)) w =
  evdev_loop n LIBEVDEV_READ_FLAG_SYNC (r_ev r) u (Libevdev d cs q)
             (World (ports w) (trace w ++ [NextEvent LIBEVDEV_READ_FLAG_NORMAL])).
Proof.
  intros Herr. rewrite evdev_loop_S, evdev_cb_iter_unfold.
  cbn [libevdev_next_event pending fd caps fst snd]. rewrite Herr. reflexivity.
Qed.

(** What [after_events] amounts to. *)
Lemma after_events_fields flags evs :
  forall u w,
    evdev_dev (after_events flags evs (u, w)).1 = evdev_dev u /\
    event (after_events flags evs (u, w)).1 = event u.
Proof.
  unfold after_events.
  induction evs as [| ev evs IH]; intros u w; [done|].
  cbn [fold_left]. unfold after_event at 2 4. cbn [fst snd].
  destruct (IH (apply_switch ev u)
              (if is_report ev then
                 World (notify_registry u (ports w))
                       ((trace w ++ [NextEvent flags]) ++ notify_trace u (ports w))
               else World (ports w) (trace w ++ [NextEvent flags]))) as [H1 H2].
  cbn [ports trace]. rewrite H1, H2. apply apply_switch_fields.
Qed.

Lemma after_events_replay flags evs :
  forall u w,
    ((after_events flags evs (u, w)).1, ports (after_events flags evs (u, w)).2) =
    replay evs (u, ports w).
Proof.
  unfold after_events, replay.
  induction evs as [| ev evs IH]; intros u w; [done|].
  cbn [fold_left]. unfold after_event at 2 4, replay_event at 2. cbn [fst snd ports trace].
  destruct (is_report ev).
  - exact (IH (apply_switch ev u)
              (World (notify_registry u (ports w))
                     ((trace w ++ [NextEvent flags]) ++ notify_trace u (ports w)))).
  - exact (IH (apply_switch ev u) (World (ports w) (trace w ++ [NextEvent flags]))).
Qed.

Lemma after_events_trace flags evs :
  forall u w,
    exists tr,
      trace (after_events flags evs (u, w)).2 = trace w ++ tr /\
      evaluations tr = length (List.filter is_report evs) /\
      log_errors tr = [] /\
      length (List.filter is_next_event tr) = length evs /\
      Forall (fun a => drain_call a = true) tr.
Proof.
  unfold after_events.
  induction evs as [| ev evs IH]; intros u w.
  - exists []. cbn. by rewrite app_nil_r.
  - cbn [fold_left]. unfold after_event at 2. cbn [fst snd ports trace].
    pose proof (notify_trace_port_calls u (ports w)) as Hnt.
    assert (Hnt' : Forall (fun a => drain_call a = true) (notify_trace u (ports w))).
    { unfold notify_trace, port_calls.
      destruct (ports w !! "output-wired_headphone"%string),
        (ports w !! "output-wired_headset"%string),
        (ports w !! "input-wired_headset"%string); repeat constructor. }
    assert (Hle : log_errors (notify_trace u (ports w)) = []).
    { unfold notify_trace, port_calls.
      destruct (ports w !! "output-wired_headphone"%string),
        (ports w !! "output-wired_headset"%string),
        (ports w !! "input-wired_headset"%string); reflexivity. }
    destruct (is_report ev) eqn:Er.
    + destruct (IH (apply_switch ev u)
                  (World (notify_registry u (ports w))
                         ((trace w ++ [NextEvent flags]) ++ notify_trace u (ports w))))
        as (tr & Htr & Hev & Hlog & Hne & Hcalls).
      exists ([NextEvent flags] ++ notify_trace u (ports w) ++ tr).
      cbn [trace] in Htr. rewrite Htr. split; [by rewrite <- !app_assoc|].
      cbn [List.filter]. rewrite Er. cbn [length].
      split; [|split; [|split]].
      * rewrite !evaluations_app, evaluations_notify_trace, Hev.
        change (evaluations [NextEvent flags]) with 0%nat. lia.
      * unfold log_errors in *. rewrite !omap_app, Hle, Hlog. reflexivity.
      * rewrite !List.filter_app, !length_app, Hne.
        rewrite (filter_none is_next_event (notify_trace u (ports w))).
        { reflexivity. }
        eapply Forall_impl; [exact Hnt|]. by intros a (? & ? & ?).
      * apply Forall_app. split; [by repeat constructor|].
        apply Forall_app. by split.
    + destruct (IH (apply_switch ev u)
                  (World (ports w) (trace w ++ [NextEvent flags])))
        as (tr & Htr & Hev & Hlog & Hne & Hcalls).
      exists ([NextEvent flags] ++ tr).
      cbn [trace] in Htr. rewrite Htr. split; [by rewrite <- !app_assoc|].
      cbn [List.filter]. rewrite Er.
      split; [|split; [|split]].
      * rewrite !evaluations_app, Hev.
        change (evaluations [NextEvent flags]) with 0%nat. lia.
      * unfold log_errors in *. rewrite !omap_app, Hlog. reflexivity.
      * rewrite !List.filter_app, !length_app, Hne. reflexivity.
      * apply Forall_app. split; [by repeat constructor|done].
Qed.

Lemma apply_switch_report ev u : is_report ev = true -> apply_switch ev u = u.
Proof.
  unfold is_report, apply_switch. intros [Ht _]%andb_true_iff.
  apply Z.eqb_eq in Ht. rewrite Ht. reflexivity.
Qed.

Lemma replay_app evs1 evs2 s : replay (evs1 ++ evs2) s = replay evs2 (replay evs1 s).
Proof. unfold replay. apply fold_left_app. Qed.

Lemma replay_registry_cases evs :
  forall u reg,
    (replay evs (u, reg)).2 = reg \/
    exists u0, (replay evs (u, reg)).2 = notify_registry u0 reg.
Proof.
  unfold replay.
  induction evs as [| ev evs IH]; intros u reg; [by left|].
  cbn [fold_left]. unfold replay_event at 2 4. cbn [fst snd].
  destruct (is_report ev).
  - right. destruct (IH (apply_switch ev u) (notify_registry u reg)) as [-> | [u0 ->]].
    + by exists u.
    + exists u0. apply notify_registry_absorb.
  - apply IH.
Qed.

Lemma apply_switch_get code (get : pa_droid_extevdev -> bool) ev u :
  (code = SW_HEADPHONE_INSERT /\ get = sw_headphone_insert) \/
  (code = SW_MICROPHONE_INSERT /\ get = sw_microphone_insert) \/
  (code = SW_LINEOUT_INSERT /\ get = sw_lineout_insert) ->
  get (apply_switch ev u) =
  if is_switch code ev then bool_of_int (ev_value ev) else get u.
Proof.
  unfold apply_switch, is_switch,
    SW_HEADPHONE_INSERT, SW_MICROPHONE_INSERT, SW_LINEOUT_INSERT.
  intros [[-> ->] | [[-> ->] | [-> ->]]];
    destruct (ev_type ev =? EV_SW); cbn [andb]; try reflexivity;
    destruct (ev_code ev =? 2) eqn:E2, (ev_code ev =? 4) eqn:E4,
      (ev_code ev =? 6) eqn:E6;
    rewrite ?Z.eqb_eq in *; try lia; reflexivity.
Qed.

Lemma replay_get_last code (get : pa_droid_extevdev -> bool) evs :
  (code = SW_HEADPHONE_INSERT /\ get = sw_headphone_insert) \/
  (code = SW_MICROPHONE_INSERT /\ get = sw_microphone_insert) \/
  (code = SW_LINEOUT_INSERT /\ get = sw_lineout_insert) ->
  forall u reg,
    get (replay evs (u, reg)).1 =
    default (get u) (bool_of_int <$> last_value code evs).
Proof.
  intros Hcode.
  assert (Hgen : forall u reg acc b0,
             get u = default b0 (bool_of_int <$> acc) ->
             get (fold_left replay_event evs (u, reg)).1 =
             default b0 (bool_of_int <$>
               fold_left (fun acc ev => if is_switch code ev
                                        then Some (ev_value ev) else acc) evs acc)).
  { induction evs as [| ev evs IH]; intros u reg acc b0 Hacc; [done|].
    cbn [fold_left]. unfold replay_event at 2. cbn [fst snd].
    apply IH. rewrite (apply_switch_get code get ev u Hcode).
    by destruct (is_switch code ev). }
  intros u reg. unfold replay, last_value. by apply Hgen.
Qed.

(** The callback on a script of normally delivered events. *)
Lemma evdev_cb_normal_script u d cs script w :
  evdev_dev u = Some (Libevdev d cs script) ->
  Forall (fun r => r_err r = LIBEVDEV_READ_STATUS_SUCCESS) script ->
  evdev_cb u w =
  Returns (set_evdev_dev (Some (Libevdev d cs []))
             (after_events LIBEVDEV_READ_FLAG_NORMAL (map r_ev script) (u, w)).1)
          (World (ports (after_events LIBEVDEV_READ_FLAG_NORMAL
                                      (map r_ev script) (u, w)).2)
                 (trace (after_events LIBEVDEV_READ_FLAG_NORMAL
                                      (map r_ev script) (u, w)).2
                    ++ [NextEvent LIBEVDEV_READ_FLAG_NORMAL])).
Proof.
  intros Hdev Hall. unfold evdev_cb. rewrite Hdev. cbn [pending].
  erewrite bind_returns.
  2:{ rewrite <- (app_nil_r script) at 2.
      rewrite evdev_loop_delivered.
      - apply evdev_loop_normal_empty.
      - eapply Forall_impl; [exact Hall|]. intros r Hr. by left. }
  reflexivity.
Qed.

(** X4: when every read succeeds in normal mode, one drain handles all
    queued events in order and empties the queue: switch state and registry
    end as [replay] computes them, [notify_ports] has run once per report
    marker, and the device was read once per event plus the final read
    that finds nothing. *)
Theorem evdev_cb_replays_normal_events :
  forall (u : pa_droid_extevdev) (d : Z) (cs : gmap (Z * Z) Z)
         (script : list reply) (w : world),
    evdev_dev u = Some (Libevdev d cs script) ->
    Forall (fun r => r_err r = LIBEVDEV_READ_STATUS_SUCCESS) script ->
    exists u' w' tr,
      evdev_cb u w = Returns u' w' /\
      evdev_dev u' = Some (Libevdev d cs []) /\
      event u' = event u /\
      switches u' = switches (replay (map r_ev script) (u, ports w)).1 /\
      ports w' = (replay (map r_ev script) (u, ports w)).2 /\
      trace w' = trace w ++ tr /\
      evaluations tr = length (List.filter is_report (map r_ev script)) /\
      length (List.filter is_next_event tr) = S (length script) /\
      log_errors tr = [].
Proof.
  intros u d cs script w Hdev Hall.
  pose proof (after_events_replay LIBEVDEV_READ_FLAG_NORMAL (map r_ev script) u w) as Hrep.
  destruct (after_events_fields LIBEVDEV_READ_FLAG_NORMAL (map r_ev script) u w)
    as [_ Hev].
  destruct (after_events_trace LIBEVDEV_READ_FLAG_NORMAL (map r_ev script) u w)
    as (tr & Htr & Heval & Hlog & Hne & _).
  destruct (after_events LIBEVDEV_READ_FLAG_NORMAL (map r_ev script) (u, w))
    as [u1 w1] eqn:Eafter.
  cbn [fst snd] in *.
  exists (set_evdev_dev (Some (Libevdev d cs [])) u1),
    (World (ports w1) (trace w1 ++ [NextEvent LIBEVDEV_READ_FLAG_NORMAL])),
    (tr ++ [NextEvent LIBEVDEV_READ_FLAG_NORMAL]).
  split.
  { rewrite (evdev_cb_normal_script u d cs script w Hdev Hall), Eafter. reflexivity. }
  rewrite <- Hrep. cbn [fst snd ports trace evdev_dev event set_evdev_dev].
  do 5 (split; [done || by rewrite ?Htr, <- ?app_assoc|]).
  split; [|split].
  - rewrite evaluations_app, Heval.
    change (evaluations [NextEvent LIBEVDEV_READ_FLAG_NORMAL]) with 0%nat. lia.
  - rewrite List.filter_app, length_app, Hne, length_map. cbn. lia.
  - unfold log_errors in *. by rewrite omap_app, Hlog.
Qed.

Lemma evdev_cb_replays_normal_events_witness :
  evdev_dev (example_monitor example_unplug_script)
    = Some (Libevdev 7 ∅ example_unplug_script) /\
  Forall (fun r => r_err r = LIBEVDEV_READ_STATUS_SUCCESS) example_unplug_script /\
  exists u' w' tr,
    evdev_cb (example_monitor example_unplug_script) example_world = Returns u' w' /\
    evdev_dev u' = Some (Libevdev 7 ∅ []) /\
    event u' = event (example_monitor example_unplug_script) /\
    switches u' =
      switches (replay (map r_ev example_unplug_script)
                       (example_monitor example_unplug_script,
                        ports example_world)).1 /\
    ports w' = (replay (map r_ev example_unplug_script)
                       (example_monitor example_unplug_script,
                        ports example_world)).2 /\
    trace w' = trace example_world ++ tr /\
    evaluations tr = length (List.filter is_report (map r_ev example_unplug_script)) /\
    length (List.filter is_next_event tr) = S (length example_unplug_script) /\
    log_errors tr = [].
Proof.
  split; [reflexivity|]. split; [repeat constructor|].
  apply (evdev_cb_replays_normal_events
           (example_monitor example_unplug_script) 7 ∅
           example_unplug_script example_world).
  - reflexivity.
  - repeat constructor.
Defined.

(** X5: after a drain of normally delivered events each switch boolean
    holds what the last event of its code said (true for a value other
    than zero); a boolean whose code did not occur is as it was before. *)
Theorem evdev_cb_last_switch_event_wins :
  forall (u : pa_droid_extevdev) (d : Z) (cs : gmap (Z * Z) Z)
         (script : list reply) (w : world),
    evdev_dev u = Some (Libevdev d cs script) ->
    Forall (fun r => r_err r = LIBEVDEV_READ_STATUS_SUCCESS) script ->
    exists u' w',
      evdev_cb u w = Returns u' w' /\
      sw_headphone_insert u' =
        default (sw_headphone_insert u)
          (bool_of_int <$> last_value SW_HEADPHONE_INSERT (map r_ev script)) /\
      sw_microphone_insert u' =
        default (sw_microphone_insert u)
          (bool_of_int <$> last_value SW_MICROPHONE_INSERT (map r_ev script)) /\
      sw_lineout_insert u' =
        default (sw_lineout_insert u)
          (bool_of_int <$> last_value SW_LINEOUT_INSERT (map r_ev script)).
Proof.
  intros u d cs script w Hdev Hall.
  pose proof (after_events_replay LIBEVDEV_READ_FLAG_NORMAL (map r_ev script) u w) as Hrep.
  eexists _, _. split; [by apply evdev_cb_normal_script|].
  cbn [sw_headphone_insert sw_microphone_insert sw_lineout_insert set_evdev_dev].
  apply (f_equal fst) in Hrep. cbn [fst] in Hrep. rewrite Hrep.
  split; [|split].
  - apply (replay_get_last SW_HEADPHONE_INSERT sw_headphone_insert). auto.
  - apply (replay_get_last SW_MICROPHONE_INSERT sw_microphone_insert). auto.
  - apply (replay_get_last SW_LINEOUT_INSERT sw_lineout_insert). auto.
Qed.

Lemma evdev_cb_last_switch_event_wins_witness :
  evdev_dev (example_monitor example_unplug_script)
    = Some (Libevdev 7 ∅ example_unplug_script) /\
  Forall (fun r => r_err r = LIBEVDEV_READ_STATUS_SUCCESS) example_unplug_script /\
  exists u' w',
    evdev_cb (example_monitor example_unplug_script) example_world = Returns u' w' /\
    sw_headphone_insert u' =
      default (sw_headphone_insert (example_monitor example_unplug_script))
        (bool_of_int <$>
           last_value SW_HEADPHONE_INSERT (map r_ev example_unplug_script)) /\
    sw_microphone_insert u' =
      default (sw_microphone_insert (example_monitor example_unplug_script))
        (bool_of_int <$>
           last_value SW_MICROPHONE_INSERT (map r_ev example_unplug_script)) /\
    sw_lineout_insert u' =
      default (sw_lineout_insert (example_monitor example_unplug_script))
        (bool_of_int <$>
           last_value SW_LINEOUT_INSERT (map r_ev example_unplug_script)).
Proof.
  split; [reflexivity|]. split; [repeat constructor|].
  apply (evdev_cb_last_switch_event_wins
           (example_monitor example_unplug_script) 7 ∅
           example_unplug_script example_world).
  - reflexivity.
  - repeat constructor.
Defined.

(** X6: when a drain of normally delivered events ends with a report
    marker, the registry agrees with the final switch state: every
    headphone-class port of the card shows the headphone decision for
    that state, every headset-class port the headset decision, and no
    other port has changed. *)
Theorem evdev_cb_registry_matches_final_state :
  forall (u : pa_droid_extevdev) (d : Z) (cs : gmap (Z * Z) Z)
         (script : list reply) (marker : reply) (w : world),
    evdev_dev u = Some (Libevdev d cs (script ++ [marker])) ->
    Forall (fun r => r_err r = LIBEVDEV_READ_STATUS_SUCCESS) (script ++ [marker]) ->
    is_report (r_ev marker) = true ->
    exists u' w',
      evdev_cb u w = Returns u' w' /\
      (forall name, name ∈ headphone_ports ->
         ports w' !! name = (fun _ => has_headphone u') <$> ports w !! name) /\
      (forall name, name ∈ headset_ports ->
         ports w' !! name = (fun _ => has_headset u') <$> ports w !! name) /\
      (forall name, name ∉ headphone_ports -> name ∉ headset_ports ->
         ports w' !! name = ports w !! name).
Proof.
  intros u d cs script marker w Hdev Hall Hrep.
  pose proof (after_events_replay LIBEVDEV_READ_FLAG_NORMAL
                (map r_ev (script ++ [marker])) u w) as Hproj.
  eexists _, _. split; [by apply evdev_cb_normal_script|].
  cbn [ports].
  set (s := after_events LIBEVDEV_READ_FLAG_NORMAL
              (map r_ev (script ++ [marker])) (u, w)) in *.
  assert (Hreg : ports s.2 = notify_registry s.1 (ports w)).
  { apply (f_equal snd) in Hproj as Hp2. apply (f_equal fst) in Hproj as Hp1.
    cbn [fst snd] in Hp1, Hp2. rewrite Hp1, Hp2.
    rewrite map_app, replay_app. cbn [map].
    unfold replay at 1 3. cbn [fold_left]. unfold replay_event. rewrite Hrep.
    cbn [fst snd]. rewrite apply_switch_report by done.
    destruct (replay (map r_ev script) (u, ports w)) as [u1 reg1] eqn:E.
    cbn [fst snd].
    destruct (replay_registry_cases (map r_ev script) u (ports w)) as [H | [u0 H]];
      rewrite E in H; cbn [snd] in H; rewrite H; [done|].
    apply notify_registry_absorb. }
  rewrite Hreg.
  split; [|split].
  - intros name Hn. by rewrite lookup_notify_registry_headphone.
  - intros name Hn. by rewrite lookup_notify_registry_headset.
  - intros name H1 H2. by apply lookup_notify_registry_other.
Qed.

Lemma evdev_cb_registry_matches_final_state_witness :
  evdev_dev (example_monitor example_unplug_script)
    = Some (Libevdev 7 ∅
              (take 4 example_unplug_script ++
               [Reply LIBEVDEV_READ_STATUS_SUCCESS (InputEvent EV_SYN SYN_REPORT 0)])) /\
  Forall (fun r => r_err r = LIBEVDEV_READ_STATUS_SUCCESS)
         (take 4 example_unplug_script ++
          [Reply LIBEVDEV_READ_STATUS_SUCCESS (InputEvent EV_SYN SYN_REPORT 0)]) /\
  is_report (r_ev (Reply LIBEVDEV_READ_STATUS_SUCCESS
                         (InputEvent EV_SYN SYN_REPORT 0))) = true /\
  exists u' w',
    evdev_cb (example_monitor example_unplug_script) example_world = Returns u' w' /\
    (forall name, name ∈ headphone_ports ->
       ports w' !! name =
       (fun _ => has_headphone u') <$> ports example_world !! name) /\
    (forall name, name ∈ headset_ports ->
       ports w' !! name =
       (fun _ => has_headset u') <$> ports example_world !! name) /\
    (forall name, name ∉ headphone_ports -> name ∉ headset_ports ->
       ports w' !! name = ports example_world !! name).
Proof.
  split; [reflexivity|]. split; [repeat constructor|]. split; [reflexivity|].
  apply (evdev_cb_registry_matches_final_state
           (example_monitor example_unplug_script) 7 ∅
           (take 4 example_unplug_script)
           (Reply LIBEVDEV_READ_STATUS_SUCCESS (InputEvent EV_SYN SYN_REPORT 0))
           example_world).
  - reflexivity.
  - repeat constructor.
  - reflexivity.
Defined.

(** X7: a drain stops at the first read that fails in normal mode, whether
    it would block or failed otherwise.  The events delivered before it
    have been handled, the answers queued after it are left for the next
    wake-up, and the failure is logged once unless it is [-EAGAIN], which
    is not logged. *)
Theorem evdev_cb_stops_at_first_failure :
  forall (u : pa_droid_extevdev) (d : Z) (cs : gmap (Z * Z) Z)
         (before : list reply) (failed : reply) (later : list reply) (w : world),
    evdev_dev u = Some (Libevdev d cs (before ++ failed :: later)) ->
    Forall (fun r => r_err r = LIBEVDEV_READ_STATUS_SUCCESS) before ->
    r_err failed < 0 ->
    exists u' w' tr,
      evdev_cb u w = Returns u' w' /\
      evdev_dev u' = Some (Libevdev d cs later) /\
      event u' = event u /\
      switches u' = switches (replay (map r_ev before) (u, ports w)).1 /\
      ports w' = (replay (map r_ev before) (u, ports w)).2 /\
      trace w' = trace w ++ tr /\
      log_errors tr =
        (if r_err failed =? - EAGAIN then [] else [- r_err failed]) /\
      evaluations tr = length (List.filter is_report (map r_ev before)).
Proof.
  intros u d cs before failed later w Hdev Hall Hneg.
  pose proof (after_events_replay LIBEVDEV_READ_FLAG_NORMAL (map r_ev before) u w) as Hrep.
  destruct (after_events_fields LIBEVDEV_READ_FLAG_NORMAL (map r_ev before) u w)
    as [_ Hev].
  destruct (after_events_trace LIBEVDEV_READ_FLAG_NORMAL (map r_ev before) u w)
    as (tr & Htr & Heval & Hlog & _ & _).
  destruct (after_events LIBEVDEV_READ_FLAG_NORMAL (map r_ev before) (u, w))
    as [u1 w1] eqn:Eafter.
  cbn [fst snd] in *.
  eexists _, _, _. split.
  { unfold evdev_cb. rewrite Hdev. cbn [pending].
    erewrite bind_returns.
    2:{ rewrite length_app. cbn [length].
        replace (length before + S (length later) + 2)%nat
          with (length before + S (S (S (length later))))%nat by lia.
        rewrite evdev_loop_delivered.
        - rewrite Eafter. cbn [fst snd]. by apply evdev_loop_normal_failure.
        - eapply Forall_impl; [exact Hall|]. intros r Hr. by left. }
    reflexivity. }
  rewrite <- Hrep. cbn [fst snd ports trace evdev_dev event set_evdev_dev].
  do 4 (split; [done|]).
  split; [by rewrite Htr, <- app_assoc|].
  change (NextEvent ?f :: ?l) with ([NextEvent f] ++ l).
  split.
  - unfold log_errors in *. rewrite !omap_app, Hlog.
    by destruct (r_err failed =? - EAGAIN).
  - rewrite !evaluations_app, Heval.
    change (evaluations [NextEvent LIBEVDEV_READ_FLAG_NORMAL]) with 0%nat.
    destruct (r_err failed =? - EAGAIN); cbn; lia.
Qed.

Lemma evdev_cb_stops_at_first_failure_witness :
  evdev_dev (example_monitor
               (take 2 example_unplug_script ++
                Reply (- ENODEV) ev_uninit :: drop 2 example_unplug_script))
    = Some (Libevdev 7 ∅
              (take 2 example_unplug_script ++
               Reply (- ENODEV) ev_uninit :: drop 2 example_unplug_script)) /\
  Forall (fun r => r_err r = LIBEVDEV_READ_STATUS_SUCCESS)
         (take 2 example_unplug_script) /\
  r_err (Reply (- ENODEV) ev_uninit) < 0 /\
  exists u' w' tr,
    evdev_cb (example_monitor
                (take 2 example_unplug_script ++
                 Reply (- ENODEV) ev_uninit :: drop 2 example_unplug_script))
             example_world = Returns u' w' /\
    evdev_dev u' = Some (Libevdev 7 ∅ (drop 2 example_unplug_script)) /\
    trace w' = trace example_world ++ tr /\
    log_errors tr = [ENODEV].
Proof.
  split; [reflexivity|]. split; [repeat constructor|]. split; [reflexivity|].
  destruct (evdev_cb_stops_at_first_failure
              (example_monitor
                 (take 2 example_unplug_script ++
                  Reply (- ENODEV) ev_uninit :: drop 2 example_unplug_script))
              7 ∅ (take 2 example_unplug_script) (Reply (- ENODEV) ev_uninit)
              (drop 2 example_unplug_script) example_world
              eq_refl ltac:(repeat constructor) eq_refl)
    as (u' & w' & tr & E & Hd & _ & _ & _ & Htr & Hlog & _).
  exists u', w', tr. repeat split; assumption.
Defined.

(** X8: recovery after dropped events, for every stream.  With any events
    delivered normally, then the notice that events were dropped, then
    any snapshot delivered in sync mode, one drain handles the events
    before the notice and the snapshot events in order, exactly as if all
    had been delivered normally; the event that comes with the notice is
    not handled; the queue ends empty and [notify_ports] has run once per
    report marker among the handled events. *)
Theorem evdev_cb_resync_replays_snapshot :
  forall (u : pa_droid_extevdev) (d : Z) (cs : gmap (Z * Z) Z)
         (before : list reply) (notice : reply) (snapshot : list reply) (w : world),
    evdev_dev u = Some (Libevdev d cs (before ++ notice :: snapshot)) ->
    Forall (fun r => r_err r = LIBEVDEV_READ_STATUS_SUCCESS) before ->
    r_err notice = LIBEVDEV_READ_STATUS_SYNC ->
    Forall (fun r => r_err r = LIBEVDEV_READ_STATUS_SYNC) snapshot ->
    let handled := map r_ev before ++ map r_ev snapshot in
    exists u' w' tr,
      evdev_cb u w = Returns u' w' /\
      evdev_dev u' = Some (Libevdev d cs []) /\
      event u' = event u /\
      switches u' = switches (replay handled (u, ports w)).1 /\
      ports w' = (replay handled (u, ports w)).2 /\
      trace w' = trace w ++ tr /\
      evaluations tr = length (List.filter is_report handled) /\
      log_errors tr = [].
Proof.
  intros u d cs before notice snapshot w Hdev Hbefore Hnotice Hsnap handled.
  set (N := LIBEVDEV_READ_FLAG_NORMAL). set (S' := LIBEVDEV_READ_FLAG_SYNC).
  pose proof (after_events_replay N (map r_ev before) u w) as Hrep1.
  destruct (after_events_fields N (map r_ev before) u w) as [_ Hev1].
  destruct (after_events_trace N (map r_ev before) u w)
    as (tr1 & Htr1 & Heval1 & Hlog1 & _ & _).
  destruct (after_events N (map r_ev before) (u, w)) as [u1 w1] eqn:E1.
  cbn [fst snd] in *.
  set (w1' := World (ports w1) (trace w1 ++ [NextEvent N])).
  pose proof (after_events_replay S' (map r_ev snapshot) u1 w1') as Hrep2.
  destruct (after_events_fields S' (map r_ev snapshot) u1 w1') as [_ Hev2].
  destruct (after_events_trace S' (map r_ev snapshot) u1 w1')
    as (tr2 & Htr2 & Heval2 & Hlog2 & _ & _).
  destruct (after_events S' (map r_ev snapshot) (u1, w1')) as [u2 w2] eqn:E2.
  cbn [fst snd ports trace] in *.
  exists (set_evdev_dev (Some (Libevdev d cs [])) u2),
    (World (ports w2) (trace w2 ++ [NextEvent S'; NextEvent N])),
    (tr1 ++ [NextEvent N] ++ tr2 ++ [NextEvent S'; NextEvent N]).
  split.
  { unfold evdev_cb. rewrite Hdev. cbn [pending].
    erewrite bind_returns.
    2:{ rewrite length_app. cbn [length].
        replace (length before + S (length snapshot) + 2)%nat
          with (length before + S (length snapshot + 2))%nat by lia.
        rewrite evdev_loop_delivered
          by (eapply Forall_impl; [exact Hbefore|]; intros r Hr; by left).
        fold N. rewrite E1. cbn [fst snd].
        rewrite evdev_loop_normal_notice by done. fold N S' w1'.
        assert (Hs : Forall (fun r => delivered S' (r_err r)) snapshot)
          by (eapply Forall_impl; [exact Hsnap|]; intros r Hr; by right).
        pose proof (evdev_loop_delivered snapshot 2 S' (r_ev notice) u1 d cs [] w1' Hs)
          as Hloop.
        rewrite app_nil_r in Hloop. rewrite Hloop, E2. cbn [fst snd].
        apply evdev_loop_sync_empty. }
    reflexivity. }
  cbn [ports trace evdev_dev event set_evdev_dev].
  assert (Hall : (u2, ports w2) = replay handled (u, ports w)).
  { unfold handled. rewrite replay_app, <- Hrep1. exact Hrep2. }
  rewrite <- Hall. cbn [fst snd].
  split; [done|]. split; [congruence|]. split; [done|]. split; [done|].
  split.
  { rewrite Htr2. unfold w1'. cbn [trace]. by rewrite Htr1, <- !app_assoc. }
  split.
  - unfold handled. rewrite !evaluations_app, List.filter_app, length_app.
    rewrite Heval1, Heval2. cbn. lia.
  - unfold log_errors in *. rewrite !omap_app, Hlog1, Hlog2. reflexivity.
Qed.

Lemma evdev_cb_resync_replays_snapshot_witness :
  evdev_dev (example_monitor resync_script)
    = Some (Libevdev 7 ∅ (take 1 resync_script ++
                           Reply LIBEVDEV_READ_STATUS_SYNC
                                 (InputEvent EV_SYN SYN_DROPPED 0)
                           :: drop 2 resync_script)) /\
  Forall (fun r => r_err r = LIBEVDEV_READ_STATUS_SUCCESS) (take 1 resync_script) /\
  r_err (Reply LIBEVDEV_READ_STATUS_SYNC (InputEvent EV_SYN SYN_DROPPED 0))
    = LIBEVDEV_READ_STATUS_SYNC /\
  Forall (fun r => r_err r = LIBEVDEV_READ_STATUS_SYNC) (drop 2 resync_script) /\
  exists u' w' tr,
    evdev_cb (example_monitor resync_script) example_world = Returns u' w' /\
    evdev_dev u' = Some (Libevdev 7 ∅ []) /\
    trace w' = trace example_world ++ tr /\
    evaluations tr = 1%nat /\
    log_errors tr = [].
Proof.
  split; [reflexivity|]. split; [repeat constructor|]. split; [reflexivity|].
  split; [repeat constructor|].
  destruct (evdev_cb_resync_replays_snapshot
              (example_monitor resync_script) 7 ∅ (take 1 resync_script)
              (Reply LIBEVDEV_READ_STATUS_SYNC (InputEvent EV_SYN SYN_DROPPED 0))
              (drop 2 resync_script) example_world
              eq_refl ltac:(repeat constructor) eq_refl ltac:(repeat constructor))
    as (u' & w' & tr & E & Hd & _ & _ & _ & Htr & Hev & Hlog).
  exists u', w', tr. repeat split; assumption.
Defined.

(** ** What a drain cannot do *)

(** A relation between the state before and after that holds across a
    drain as soon as every single step of the loop keeps it. *)
Lemma evdev_loop_rel
    (R : pa_droid_extevdev * world -> pa_droid_extevdev * world -> Prop)
    (Pev : input_event -> Prop) :
  (forall s, R s s) ->
  (forall s1 s2 s3, R s1 s2 -> R s2 s3 -> R s1 s3) ->
  (forall u w a, drain_call a = true -> is_notified a = false ->
     R (u, w) (u, World (ports w) (trace w ++ [a]))) ->
  (forall ev u w u' w', Pev ev -> handle_event ev u w = Returns u' w' ->
     R (u, w) (u', w')) ->
  forall fuel flags ev u dev w u' dev' w',
    Forall (fun r => Pev (r_ev r)) (pending dev) ->
    evdev_loop fuel flags ev u dev w = Returns (u', dev') w' ->
    R (u, w) (u', w').
Proof.
  intros Hrefl Htrans Hemit Hhandle.
  induction fuel as [| fuel IH]; intros flags ev u dev w u' dev' w' Hall Hrun;
    [discriminate|].
  rewrite evdev_loop_S, evdev_cb_iter_unfold in Hrun.
  set (w1 := World (ports w) (trace w ++ [NextEvent flags])) in *.
  assert (Hw1 : R (u, w) (u, w1)) by (by apply Hemit).
  unfold libevdev_next_event in Hrun.
  destruct dev as [d cs [| r q]]; cbn [pending fst snd fd caps] in *.
  - rewrite Z.eqb_refl in Hrun. destruct flags.
    + eapply Htrans; [exact Hw1|]. eapply IH; [|exact Hrun]. done.
    + by injection Hrun as <- <- <-.
  - inversion Hall as [| ? ? Hr Hq]; subst.
    assert (Hproc : forall f,
               match (u'0 <- handle_event (r_ev r) u ;;
                      ret (Continue f (r_ev r) u'0 (Libevdev d cs q))) w1 with
               | Returns (Break u'0 dev'0) w'0 => Returns (u'0, dev'0) w'0
               | Returns (Continue flags' ev' u'0 dev'0) w'0 =>
                   evdev_loop fuel flags' ev' u'0 dev'0 w'0
               | Undefined w'0 => Undefined w'0
               | OutOfFuel w'0 => OutOfFuel w'0
               end = Returns (u', dev') w' ->
               R (u, w) (u', w')).
    { intros f Hp.
      erewrite bind_returns in Hp by apply handle_event_pure.
      pose proof (Hhandle (r_ev r) u w1 _ _ Hr (handle_event_pure (r_ev r) u w1)) as Hstep.
      unfold ret in Hp.
      eapply Htrans; [exact Hw1|]. eapply Htrans; [exact Hstep|].
      eapply IH; [|exact Hp]. done. }
    destruct (r_err r =? - EAGAIN) eqn:E1.
    { destruct flags.
      - eapply Htrans; [exact Hw1|]. eapply IH; [|exact Hrun]. done.
      - by injection Hrun as <- <- <-. }
    destruct (r_err r =? LIBEVDEV_READ_STATUS_SYNC) eqn:E2.
    { apply Z.eqb_eq in E2. rewrite E2 in Hrun. cbn [Z.ltb Z.compare] in Hrun.
      change (LIBEVDEV_READ_STATUS_SYNC <? 0) with false in Hrun. cbv iota in Hrun.
      destruct flags.
      - by apply (Hproc LIBEVDEV_READ_FLAG_SYNC).
      - eapply Htrans; [exact Hw1|]. eapply IH; [|exact Hrun]. done. }
    destruct (r_err r <? 0) eqn:E3.
    { injection Hrun as <- <- <-.
      eapply Htrans; [exact Hw1|].
      replace (trace w ++ [NextEvent flags; LogError (- r_err r)])
        with (trace w1 ++ [LogError (- r_err r)])
        by (unfold w1; cbn [trace]; by rewrite <- app_assoc).
      by apply (Hemit u w1). }
    by apply (Hproc flags).
Qed.

Lemma evdev_cb_inv u dev w u' w' :
  evdev_dev u = Some dev ->
  evdev_cb u w = Returns u' w' ->
  exists u1 dev1,
    evdev_loop (length (pending dev) + 2) LIBEVDEV_READ_FLAG_NORMAL ev_uninit u dev w
      = Returns (u1, dev1) w' /\
    u' = set_evdev_dev (Some dev1) u1.
Proof.
  intros Hdev. unfold evdev_cb. rewrite Hdev. unfold bind.
  destruct (evdev_loop _ _ _ _ _ _) as [[u1 dev1] w1 | |]; [|done..].
  unfold ret. intros [= <- <-]. by exists u1, dev1.
Qed.

Lemma drain_call_notify_trace u reg :
  Forall (fun a => drain_call a = true) (notify_trace u reg).
Proof.
  unfold notify_trace, port_calls.
  destruct (reg !! "output-wired_headphone"%string),
    (reg !! "output-wired_headset"%string),
    (reg !! "input-wired_headset"%string); repeat constructor.
Qed.

(** X9: whatever the device answers, a drain changes no port of the card
    other than the headphone-class and headset-class ports, and it neither
    adds a port to the card nor removes one. *)
Theorem evdev_cb_touches_only_wired_ports :
  forall (u : pa_droid_extevdev) (dev : libevdev) (w : world),
    evdev_dev u = Some dev ->
    exists u' w',
      evdev_cb u w = Returns u' w' /\
      dom (ports w') = dom (ports w) /\
      forall name, name ∉ headphone_ports -> name ∉ headset_ports ->
        ports w' !! name = ports w !! name.
Proof.
  intros u dev w Hdev.
  destruct (evdev_cb_returns u dev w Hdev) as (u' & dev' & w' & E & _).
  exists u', w'. split; [exact E|].
  destruct (evdev_cb_inv u dev w u' w' Hdev E) as (u1 & dev1 & Hrun & _).
  set (R := fun s1 s2 : pa_droid_extevdev * world =>
              dom (ports s2.2) = dom (ports s1.2) /\
              forall name, name ∉ headphone_ports -> name ∉ headset_ports ->
                ports s2.2 !! name = ports s1.2 !! name).
  apply (evdev_loop_rel R (fun _ => True)) in Hrun; [exact Hrun|..].
  - by intros s.
  - intros s1 s2 s3 [D1 L1] [D2 L2]. split; [congruence|].
    intros name H1 H2. by rewrite L2, L1.
  - by intros u0 w0 a _ _.
  - intros ev u0 w0 u0' w0' _ Hh. rewrite handle_event_pure in Hh.
    injection Hh as <- <-. unfold R. cbn [fst snd].
    destruct (is_report ev); [|done]. cbn [ports].
    split; [apply dom_notify_registry|].
    intros name H1 H2. by apply lookup_notify_registry_other.
  - apply Forall_forall. done.
Qed.

Lemma evdev_cb_touches_only_wired_ports_witness :
  evdev_dev (example_monitor resync_script) = Some (Libevdev 7 ∅ resync_script) /\
  exists u' w',
    evdev_cb (example_monitor resync_script) example_world = Returns u' w' /\
    dom (ports w') = dom (ports example_world) /\
    forall name, name ∉ headphone_ports -> name ∉ headset_ports ->
      ports w' !! name = ports example_world !! name.
Proof.
  split; [reflexivity|].
  apply (evdev_cb_touches_only_wired_ports
           (example_monitor resync_script) (Libevdev 7 ∅ resync_script) example_world).
  reflexivity.
Defined.

Lemma evdev_cb_drain_calls u dev w :
  evdev_dev u = Some dev ->
  exists u' w' tr,
    evdev_cb u w = Returns u' w' /\
    trace w' = trace w ++ tr /\
    Forall (fun a => drain_call a = true) tr.
Proof.
  intros Hdev.
  destruct (evdev_cb_returns u dev w Hdev) as (u' & dev' & w' & E & _).
  destruct (evdev_cb_inv u dev w u' w' Hdev E) as (u1 & dev1 & Hrun & _).
  set (R := fun s1 s2 : pa_droid_extevdev * world =>
              exists tr, trace s2.2 = trace s1.2 ++ tr /\
                         Forall (fun a => drain_call a = true) tr).
  apply (evdev_loop_rel R (fun _ => True)) in Hrun.
  - destruct Hrun as (tr & Htr & Hall). by exists u', w', tr.
  - intros s. exists []. by rewrite app_nil_r.
  - intros s1 s2 s3 (t1 & E1 & H1) (t2 & E2 & H2). exists (t1 ++ t2).
    split; [by rewrite E2, E1, app_assoc|]. by apply Forall_app.
  - intros u0 w0 a Ha _. exists [a]. split; [done|]. by constructor.
  - intros ev u0 w0 u0' w0' _ Hh. rewrite handle_event_pure in Hh.
    injection Hh as <- <-. unfold R. cbn [fst snd].
    destruct (is_report ev).
    + eexists. split; [reflexivity|]. apply drain_call_notify_trace.
    + exists []. by rewrite app_nil_r.
  - apply Forall_forall. done.
Qed.

(** X10: whatever the device answers, the only calls a drain makes are
    reads of the device, error logs, and look-ups and availability writes
    on the card: it opens and closes no descriptor, releases no decoding
    context, and neither makes nor drops a registration. *)
Theorem evdev_cb_makes_only_drain_calls :
  forall (u : pa_droid_extevdev) (dev : libevdev) (w : world),
    evdev_dev u = Some dev ->
    exists u' w' tr,
      evdev_cb u w = Returns u' w' /\
      trace w' = trace w ++ tr /\
      Forall (fun a => drain_call a = true) tr.
Proof. intros u dev w. apply evdev_cb_drain_calls. Qed.

Lemma evdev_cb_makes_only_drain_calls_witness :
  evdev_dev (example_monitor resync_script) = Some (Libevdev 7 ∅ resync_script) /\
  exists u' w' tr,
    evdev_cb (example_monitor resync_script) example_world = Returns u' w' /\
    trace w' = trace example_world ++ tr /\
    Forall (fun a => drain_call a = true) tr.
Proof.
  split; [reflexivity|].
  apply (evdev_cb_makes_only_drain_calls
           (example_monitor resync_script) (Libevdev 7 ∅ resync_script) example_world).
  reflexivity.
Defined.

Lemma apply_switch_unrecognised ev u :
  recognised_switch ev = false -> apply_switch ev u = u.
Proof.
  unfold recognised_switch, is_switch, apply_switch.
  destruct (ev_type ev =? EV_SW); [|done]. cbn [andb].
  intros H. apply orb_false_iff in H as [H H3].
  apply orb_false_iff in H as [H1 H2]. by rewrite H1, H2, H3.
Qed.

(** X11: a drain in which no answer carries a switch event of one of the
    three insertion codes leaves the three switch booleans as they were,
    whatever the read statuses are: errors, dropped-event notices, report
    markers and other events never change the switch state. *)
Theorem evdev_cb_keeps_switches_without_switch_events :
  forall (u : pa_droid_extevdev) (dev : libevdev) (w : world),
    evdev_dev u = Some dev ->
    Forall (fun r => recognised_switch (r_ev r) = false) (pending dev) ->
    exists u' w',
      evdev_cb u w = Returns u' w' /\
      switches u' = switches u.
Proof.
  intros u dev w Hdev Hall.
  destruct (evdev_cb_returns u dev w Hdev) as (u' & dev' & w' & E & _).
  exists u', w'. split; [exact E|].
  destruct (evdev_cb_inv u dev w u' w' Hdev E) as (u1 & dev1 & Hrun & ->).
  set (R := fun s1 s2 : pa_droid_extevdev * world => switches s2.1 = switches s1.1).
  apply (evdev_loop_rel R (fun ev => recognised_switch ev = false)) in Hrun;
    [exact Hrun|..]; try done.
  - intros s1 s2 s3 H1 H2. unfold R in *. congruence.
  - intros ev u0 w0 u0' w0' Hev Hh. rewrite handle_event_pure in Hh.
    injection Hh as <- <-. unfold R. cbn [fst].
    by rewrite apply_switch_unrecognised.
Qed.

Lemma evdev_cb_keeps_switches_without_switch_events_witness :
  evdev_dev (example_monitor example_quiet_script)
    = Some (Libevdev 7 ∅ example_quiet_script) /\
  Forall (fun r => recognised_switch (r_ev r) = false) example_quiet_script /\
  exists u' w',
    evdev_cb (example_monitor example_quiet_script) example_world = Returns u' w' /\
    switches u' = switches (example_monitor example_quiet_script).
Proof.
  split; [reflexivity|]. split; [repeat constructor|].
  apply (evdev_cb_keeps_switches_without_switch_events
           (example_monitor example_quiet_script)
           (Libevdev 7 ∅ example_quiet_script) example_world).
  - reflexivity.
  - repeat constructor.
Defined.

(** ** The selector's footprint *)

Lemma prefix_app s1 :
  forall s2, String.prefix s1 s2 = true -> exists s, s2 = (s1 ++ s)%string.
Proof.
  induction s1 as [| a s1 IH]; intros s2 H.
  - by exists s2.
  - destruct s2 as [| b s2]; [discriminate|]. simpl in H.
    destruct (Ascii.ascii_dec a b) as [<- |]; [|discriminate].
    destruct (IH s2 H) as [s ->]. by exists s.
Qed.

Lemma opened_paths_app tr1 tr2 :
  opened_paths (tr1 ++ tr2) = opened_paths tr1 ++ opened_paths tr2.
Proof. unfold opened_paths. apply omap_app. Qed.

Lemma opened_paths_reject c : opened_paths (reject_trace c) = [node_path c].
Proof.
  unfold reject_trace.
  destruct (open_ret c <? 0), (new_from_fd_ret c <? 0); reflexivity.
Qed.

Lemma opened_paths_rejects l :
  opened_paths (concat (map reject_trace l)) = map node_path l.
Proof.
  induction l as [| c l IH]; [done|].
  cbn [map concat]. by rewrite opened_paths_app, opened_paths_reject, IH.
Qed.

(** X12: the selector opens nothing but event nodes, in listing order, and
    stops at its choice.  When it returns a handle, that handle is the
    first qualifying candidate's, and the paths it handed to [open] are
    exactly those of the candidates before that one followed by that one:
    nothing after the chosen candidate is opened.  When it returns none,
    no candidate qualifies and it has opened every candidate once, in
    order.  The candidates are the entries whose name begins with
    "event", so each opened path is "/dev/input/event" followed by the
    rest of the name, and entries with other names are never opened. *)
Theorem find_switch_evdev_opens_event_nodes_in_order :
  forall (entries : list input_node) (w : world),
    exists r w' tr,
      find_switch_evdev (Some entries) w = Returns r w' /\
      trace w' = trace w ++ tr /\
      match r with
      | Some dev =>
          exists before c after,
            candidates entries = before ++ c :: after /\
            Forall (fun c' => qualifies c' = false) before /\
            qualifies c = true /\
            dev = device_of c /\
            opened_paths tr = map node_path (before ++ [c])
      | None =>
          Forall (fun c' => qualifies c' = false) (candidates entries) /\
          opened_paths tr = map node_path (candidates entries)
      end /\
      (forall p, p ∈ opened_paths tr ->
         exists c suffix,
           c ∈ entries /\ d_name c = ("event" ++ suffix)%string /\
           p = ("/dev/input/event" ++ suffix)%string).
Proof.
  intros entries w.
  eexists _, _, _. split; [apply find_switch_evdev_run|].
  cbn [trace]. split; [reflexivity|].
  assert (Hprobed : exists probed rest,
             candidates entries = probed ++ rest /\
             opened_paths ([Scandir] ++ probe_trace (candidates entries)
                             ++ [FreeNamelist]) = map node_path probed).
  { destruct (List.find qualifies (candidates entries)) as [c |] eqn:Hfind.
    - destruct (probe_first_match _ _ Hfind) as (before & after & Hc & _ & _ & Htr).
      exists (before ++ [c]), after. split; [by rewrite <- app_assoc|].
      rewrite Htr, !opened_paths_app, opened_paths_rejects, map_app.
      cbn. by rewrite app_nil_r.
    - destruct (probe_no_match _ Hfind) as [_ Htr].
      exists (candidates entries), []. split; [by rewrite app_nil_r|].
      rewrite Htr, !opened_paths_app, opened_paths_rejects.
      cbn. by rewrite app_nil_r. }
  split.
  - destruct (List.find qualifies (candidates entries)) as [c |] eqn:Hfind;
      cbn [fmap option_fmap option_map].
    + destruct (probe_first_match _ _ Hfind) as (before & after & Hc & Hall & Hq & Htr).
      exists before, c, after. do 4 (split; [done|]).
      rewrite Htr, !opened_paths_app, opened_paths_rejects, map_app.
      cbn. by rewrite app_nil_r.
    + destruct (probe_no_match _ Hfind) as [Hall Htr]. split; [done|].
      rewrite Htr, !opened_paths_app, opened_paths_rejects.
      cbn. by rewrite app_nil_r.
  - destruct Hprobed as (probed & rest & Hc & Hop).
    intros p Hp. rewrite Hop in Hp.
    apply list_elem_of_fmap in Hp as (c & -> & Hin).
    assert (Hcand : c ∈ candidates entries).
    { rewrite Hc. apply elem_of_app. by left. }
    unfold candidates in Hcand. apply list_elem_of_In, filter_In in Hcand as [Hin' Hev].
    destruct (prefix_app _ _ Hev) as [suffix Hs].
    exists c, suffix. split; [by apply list_elem_of_In|]. split; [exact Hs|].
    unfold node_path. rewrite Hs. reflexivity.
Qed.

Lemma track_descriptor_reject c held :
  fold_left track_descriptor (reject_trace c) held = held.
Proof.
  unfold reject_trace.
  destruct (open_ret c <? 0), (new_from_fd_ret c <? 0);
    cbn [app fold_left track_descriptor remove_first]; try reflexivity;
    by rewrite Z.eqb_refl.
Qed.

Lemma track_descriptor_probe l :
  forall held,
    fold_left track_descriptor (probe_trace l) held =
    match List.find qualifies l with
    | Some c => open_ret c :: held
    | None => held
    end.
Proof.
  induction l as [| c l IH]; intros held; [done|].
  cbn [probe_trace List.find]. destruct (qualifies c); [done|].
  by rewrite fold_left_app, track_descriptor_reject.
Qed.

Lemma track_descriptor_drain_calls tr :
  Forall (fun a => drain_call a = true) tr ->
  forall held, fold_left track_descriptor tr held = held.
Proof.
  induction 1 as [| a tr Ha _ IH]; intros held; [done|].
  cbn [fold_left]. destruct a; try discriminate Ha; apply IH.
Qed.

Lemma track_registration_drain_calls tr :
  Forall (fun a => drain_call a = true) tr ->
  forall held, fold_left track_registration tr held = held.
Proof.
  induction 1 as [| a tr Ha _ IH]; intros held; [done|].
  cbn [fold_left]. destruct a; try discriminate Ha; apply IH.
Qed.

Lemma track_registration_probe l :
  forall held, fold_left track_registration (probe_trace l) held = held.
Proof.
  induction l as [| c l IH]; intros held; [done|].
  cbn [probe_trace]. destruct (qualifies c); [done|].
  rewrite fold_left_app.
  assert (Hrej : fold_left track_registration (reject_trace c) held = held).
  { unfold reject_trace.
    by destruct (open_ret c <? 0), (new_from_fd_ret c <? 0). }
  rewrite Hrej. apply IH.
Qed.

(** X13: the selector leaves open exactly the descriptor of the handle it
    returns.  Every other descriptor it obtained has been closed by the
    time it returns, whether the candidate failed at the decoding context
    or lacked the switch; when it returns no handle, none is left open. *)
Theorem find_switch_evdev_leaves_one_descriptor :
  forall (entries : list input_node) (w : world),
    exists r w' tr,
      find_switch_evdev (Some entries) w = Returns r w' /\
      trace w' = trace w ++ tr /\
      forall held,
        fold_left track_descriptor tr held =
        match r with
        | Some dev => libevdev_get_fd dev :: held
        | None => held
        end.
Proof.
  intros entries w. eexists _, _, _.
  split; [apply find_switch_evdev_run|]. cbn [trace]. split; [reflexivity|].
  intros held. rewrite !fold_left_app. cbn [fold_left track_descriptor].
  rewrite track_descriptor_probe.
  by destruct (List.find qualifies (candidates entries)).
Qed.

(** X14: creating a monitor, letting the callback drain whatever the
    device has queued and destroying the monitor releases everything that
    was acquired: no descriptor stays open and no registration stays with
    the main loop, and when no device qualifies the same holds for the
    failed creation alone. *)
Theorem create_drain_destroy_releases_everything :
  forall (entries : list input_node) (w : world),
    exists w' tr,
      create_drain_destroy (Some entries) w = Returns tt w' /\
      trace w' = trace w ++ tr /\
      (forall held, fold_left track_descriptor tr held = held) /\
      (forall held, fold_left track_registration tr held = held).
Proof.
  intros entries w. unfold create_drain_destroy.
  destruct (List.find qualifies (candidates entries)) as [c |] eqn:Hfind.
  - erewrite bind_returns by (by apply pa_droid_extevdev_new_selected).
    set (w1 := World _ _).
    destruct (evdev_cb_returns (monitor_of c) (device_of c) w1 eq_refl)
      as (u' & dev' & w2 & E & Hev & Hd & Hfd & _ & _).
    destruct (evdev_cb_drain_calls (monitor_of c) (device_of c) w1 eq_refl)
      as (u'' & w2' & trd & E' & Htrd & Hcalls).
    rewrite E in E'. injection E' as <- <-.
    erewrite bind_returns by exact E.
    rewrite pa_droid_extevdev_free_run.
    eexists _, _. split; [reflexivity|]. cbn [ports trace].
    unfold free_trace. rewrite Hev, Hd, Hfd. cbn [event monitor_of fd device_of].
    rewrite Htrd. unfold w1. cbn [trace].
    split; [by rewrite <- !app_assoc|].
    pose proof (drain_call_notify_trace (monitor_of c) (ports w)) as Hnote.
    split; intros held; unfold activation_trace;
      rewrite !fold_left_app; cbn [fold_left track_descriptor track_registration];
      rewrite ?fold_left_app; cbn [fold_left track_descriptor track_registration].
    + rewrite track_descriptor_probe, Hfind.
      rewrite (track_descriptor_drain_calls _ Hnote).
      rewrite (track_descriptor_drain_calls _ Hcalls).
      cbn [initial_fetches fold_left track_descriptor remove_first].
      by rewrite Z.eqb_refl.
    + rewrite track_registration_probe.
      rewrite (track_registration_drain_calls _ Hnote).
      rewrite (track_registration_drain_calls _ Hcalls).
      cbn [initial_fetches fold_left track_registration remove_first].
      by rewrite Z.eqb_refl.
  - erewrite bind_returns by (by apply pa_droid_extevdev_new_none_selected).
    eexists _, _. split; [reflexivity|]. cbn [trace]. split; [reflexivity|].
    split; intros held; rewrite !fold_left_app;
      cbn [fold_left track_descriptor track_registration].
    + by rewrite track_descriptor_probe, Hfind.
    + by rewrite track_registration_probe.
Qed.

(** ** Creation and the card *)

(** X15: a successful creation leaves the card showing the hardware state
    at start-up.  The monitor's booleans are the cached switch values of
    the chosen device (false for an unsupported code), every
    headphone-class port of the card shows the headphone decision for
    them, every headset-class port the headset decision, and all other
    ports are as before. *)
Theorem pa_droid_extevdev_new_publishes_initial_state :
  forall (entries : list input_node) (c : input_node) (w : world),
    List.find qualifies (candidates entries) = Some c ->
    exists m w',
      pa_droid_extevdev_new (Some entries) w = Returns (Some m) w' /\
      evdev_dev m = Some (device_of c) /\
      switches m = (present (cached (device_of c) SW_HEADPHONE_INSERT),
                    present (cached (device_of c) SW_MICROPHONE_INSERT),
                    present (cached (device_of c) SW_LINEOUT_INSERT)) /\
      (forall name, name ∈ headphone_ports ->
         ports w' !! name = (fun _ => has_headphone m) <$> ports w !! name) /\
      (forall name, name ∈ headset_ports ->
         ports w' !! name = (fun _ => has_headset m) <$> ports w !! name) /\
      (forall name, name ∉ headphone_ports -> name ∉ headset_ports ->
         ports w' !! name = ports w !! name).
Proof.
  intros entries c w Hfind. eexists _, _.
  split; [by apply pa_droid_extevdev_new_selected|].
  cbn [ports]. do 2 (split; [reflexivity|]).
  split; [|split].
  - intros name Hn. by apply lookup_notify_registry_headphone.
  - intros name Hn. by apply lookup_notify_registry_headset.
  - intros name H1 H2. by apply lookup_notify_registry_other.
Qed.

Lemma pa_droid_extevdev_new_publishes_initial_state_witness :
  List.find qualifies (candidates example_dir) = Some example_jack /\
  exists m w',
    pa_droid_extevdev_new (Some example_dir) example_world = Returns (Some m) w' /\
    evdev_dev m = Some (device_of example_jack) /\
    switches m = (present (cached (device_of example_jack) SW_HEADPHONE_INSERT),
                  present (cached (device_of example_jack) SW_MICROPHONE_INSERT),
                  present (cached (device_of example_jack) SW_LINEOUT_INSERT)) /\
    (forall name, name ∈ headphone_ports ->
       ports w' !! name = (fun _ => has_headphone m) <$> ports example_world !! name) /\
    (forall name, name ∈ headset_ports ->
       ports w' !! name = (fun _ => has_headset m) <$> ports example_world !! name) /\
    (forall name, name ∉ headphone_ports -> name ∉ headset_ports ->
       ports w' !! name = ports example_world !! name).
Proof.
  split; [vm_compute; reflexivity|].
  apply (pa_droid_extevdev_new_publishes_initial_state
           example_dir example_jack example_world).
  vm_compute; reflexivity.
Defined.

Lemma writes_probe_trace l : writes (probe_trace l) = [].
Proof.
  induction l as [| c l IH]; [done|].
  cbn [probe_trace]. destruct (qualifies c); [done|].
  rewrite writes_app, IH. unfold reject_trace.
  by destruct (open_ret c <? 0), (new_from_fd_ret c <? 0).
Qed.

(** X16: a creation that finds no qualifying device leaves nothing
    behind: it returns no monitor, the card's ports are untouched, nothing
    was registered with the main loop, no switch value was fetched, no
    availability was evaluated or written, every descriptor it opened is
    closed again, and its last act is freeing the structure. *)
Theorem pa_droid_extevdev_new_failure_leaves_nothing :
  forall (entries : list input_node) (w : world),
    List.find qualifies (candidates entries) = None ->
    exists w' tr,
      pa_droid_extevdev_new (Some entries) w = Returns None w' /\
      ports w' = ports w /\
      trace w' = trace w ++ tr /\
      List.filter is_registration tr = [] /\
      List.filter is_initial_read tr = [] /\
      evaluations tr = 0%nat /\
      writes tr = [] /\
      (forall held, fold_left track_descriptor tr held = held) /\
      last tr = Some Xfree.
Proof.
  intros entries w Hfind. eexists _, _.
  split; [by apply pa_droid_extevdev_new_none_selected|].
  cbn [ports trace]. do 2 (split; [reflexivity|]).
  pose proof (probe_trace_selector_calls (candidates entries)) as Hprobe.
  pose proof (probe_trace_not_notified (candidates entries)) as Hnot.
  repeat split.
  - rewrite !List.filter_app, (filter_none is_registration (probe_trace _)); [done|].
    eapply Forall_impl; [exact Hprobe|]. by intros a (? & ? & ?).
  - rewrite !List.filter_app, (filter_none is_initial_read (probe_trace _)); [done|].
    eapply Forall_impl; [exact Hprobe|]. by intros a (? & ? & ?).
  - unfold evaluations.
    by rewrite !List.filter_app, (filter_none is_notified _ Hnot).
  - by rewrite !writes_app, writes_probe_trace.
  - intros held. rewrite !fold_left_app. cbn [fold_left track_descriptor].
    by rewrite track_descriptor_probe, Hfind.
  - rewrite !app_assoc. apply last_snoc.
Qed.

Lemma pa_droid_extevdev_new_failure_leaves_nothing_witness :
  List.find qualifies (candidates (take 4 example_dir)) = None /\
  exists w' tr,
    pa_droid_extevdev_new (Some (take 4 example_dir)) example_world
      = Returns None w' /\
    ports w' = ports example_world /\
    trace w' = trace example_world ++ tr /\
    List.filter is_registration tr = [] /\
    List.filter is_initial_read tr = [] /\
    evaluations tr = 0%nat /\
    writes tr = [] /\
    (forall held, fold_left track_descriptor tr held = held) /\
    last tr = Some Xfree.
Proof.
  split; [vm_compute; reflexivity|].
  apply (pa_droid_extevdev_new_failure_leaves_nothing
           (take 4 example_dir) example_world).
  vm_compute; reflexivity.
Defined.

(** ** How long a drain runs *)

Lemma evdev_cb_iter_reads flags ev u dev w c w' :
  evdev_cb_iter flags ev u dev w = Returns c w' ->
  exists tr,
    trace w' = trace w ++ NextEvent flags :: tr /\
    List.filter is_next_event tr = [].
Proof.
  rewrite evdev_cb_iter_unfold.
  assert (Hproc : forall f e d,
             (u'0 <- handle_event e u ;; ret (Continue f e u'0 d))
               (World (ports w) (trace w ++ [NextEvent flags])) = Returns c w' ->
             exists tr,
               trace w' = trace w ++ NextEvent flags :: tr /\
               List.filter is_next_event tr = []).
  { intros f e d Hp.
    erewrite bind_returns in Hp by apply handle_event_pure.
    unfold ret in Hp. injection Hp as <- <-.
    destruct (is_report e); cbn [ports trace].
    - exists (notify_trace u (ports w)). split; [by rewrite <- app_assoc|].
      apply filter_none.
      eapply Forall_impl; [apply notify_trace_port_calls|]. by intros a (? & ? & ?).
    - by exists []. }
  cbv zeta.
  destruct (_ =? - EAGAIN).
  { destruct flags; intros [= <- <-]; cbn [trace]; by eexists. }
  destruct (_ =? LIBEVDEV_READ_STATUS_SYNC).
  { destruct flags; [apply Hproc|]. intros [= <- <-]; cbn [trace]; by eexists. }
  destruct (_ <? 0); [|apply Hproc].
  intros [= <- <-]. cbn [trace]. by eexists.
Qed.

Lemma evdev_loop_reads fuel :
  forall flags ev u dev w u' dev' w',
    evdev_loop fuel flags ev u dev w = Returns (u', dev') w' ->
    exists tr,
      trace w' = trace w ++ tr /\
      (1 <= length (List.filter is_next_event tr) <= passes_needed flags dev)%nat.
Proof.
  induction fuel as [| fuel IH]; intros flags ev u dev w u' dev' w' Hrun;
    [discriminate|].
  rewrite evdev_loop_S in Hrun.
  destruct (evdev_cb_iter_progress flags ev u dev w) as (c & w1 & E & _ & Hc).
  rewrite E in Hrun.
  destruct (evdev_cb_iter_reads _ _ _ _ _ _ _ E) as (tr1 & Htr1 & Hn1).
  assert (Hpos : (1 <= passes_needed flags dev)%nat).
  { unfold passes_needed. destruct (pending dev), flags; lia. }
  destruct c as [u1 dev1 | flags1 ev1 u1 dev1].
  - injection Hrun as <- <- <-. exists (NextEvent flags :: tr1).
    split; [done|]. cbn [List.filter is_next_event]. rewrite Hn1. cbn. lia.
  - destruct Hc as (_ & _ & _ & _ & Hlt).
    destruct (IH _ _ _ _ _ _ _ _ Hrun) as (tr2 & Htr2 & Hn2).
    exists ((NextEvent flags :: tr1) ++ tr2).
    split; [by rewrite Htr2, Htr1, <- app_assoc|].
    rewrite List.filter_app, length_app. cbn [List.filter is_next_event].
    rewrite Hn1. cbn [length]. lia.
Qed.

(** X17: a drain cannot spin.  It reads the device at least once and at
    most two times more than there are answers queued, so the callback
    hands control back to the main loop after a number of reads bounded
    by the queue. *)
Theorem evdev_cb_reads_are_bounded :
  forall (u : pa_droid_extevdev) (dev : libevdev) (w : world),
    evdev_dev u = Some dev ->
    exists u' w' tr,
      evdev_cb u w = Returns u' w' /\
      trace w' = trace w ++ tr /\
      (1 <= length (List.filter is_next_event tr) <= length (pending dev) + 2)%nat.
Proof.
  intros u dev w Hdev.
  destruct (evdev_cb_returns u dev w Hdev) as (u' & dev' & w' & E & _).
  destruct (evdev_cb_inv u dev w u' w' Hdev E) as (u1 & dev1 & Hrun & _).
  destruct (evdev_loop_reads _ _ _ _ _ _ _ _ _ Hrun) as (tr & Htr & Hn).
  exists u', w', tr. split; [exact E|]. split; [exact Htr|].
  pose proof (passes_needed_bound LIBEVDEV_READ_FLAG_NORMAL dev). lia.
Qed.

Lemma evdev_cb_reads_are_bounded_witness :
  evdev_dev (example_monitor resync_script) = Some (Libevdev 7 ∅ resync_script) /\
  exists u' w' tr,
    evdev_cb (example_monitor resync_script) example_world = Returns u' w' /\
    trace w' = trace example_world ++ tr /\
    (1 <= length (List.filter is_next_event tr)
       <= length (pending (Libevdev 7 ∅ resync_script)) + 2)%nat.
Proof.
  split; [reflexivity|].
  apply (evdev_cb_reads_are_bounded
           (example_monitor resync_script) (Libevdev 7 ∅ resync_script) example_world).
  reflexivity.
Defined.

(** One wake-up through all three outcomes: a dropped-events notice puts
    the loop in sync mode, the empty snapshot puts it back in normal mode,
    the failed read that follows is logged and ends the drain, and the
    insertion queued behind it is not read. *)
Example wake_up_through_all_outcomes :
  evdev_cb (example_monitor
              [Reply LIBEVDEV_READ_STATUS_SYNC (InputEvent EV_SYN SYN_DROPPED 0);
               Reply (- EAGAIN) ev_uninit;
               Reply (- ENODEV) ev_uninit;
               Reply LIBEVDEV_READ_STATUS_SUCCESS
                     (InputEvent EV_SW SW_LINEOUT_INSERT 1)])
           example_world =
  Returns (example_monitor
             [Reply LIBEVDEV_READ_STATUS_SUCCESS
                    (InputEvent EV_SW SW_LINEOUT_INSERT 1)])
          (World example_card
                 [NextEvent LIBEVDEV_READ_FLAG_NORMAL;
                  NextEvent LIBEVDEV_READ_FLAG_SYNC;
                  NextEvent LIBEVDEV_READ_FLAG_NORMAL;
                  LogError ENODEV]).
Proof. vm_compute. reflexivity. Qed.
